(** * Temporal factor engine, feature normaliser and live prediction service
      of the shots-on-target predictor (src/services/ai).

    Shallow embedding of the pandas code: a DataFrame column is a list, a
    missing value (NaN) is [None], floating-point numbers are rationals [Q]
    (real numbers where a transcendental function is needed). *)

From Stdlib Require Import String Ascii Arith ZArith QArith Qfield List Bool Lia Sorting.Sorted
  Sorting.Permutation Reals Lra.
Import ListNotations.

(* ------------------------------------------------------------------ *)
(** ** Shared helpers: pandas reductions over a column *)

Module Column.

(** The non-missing values of a column, in order ([Series.dropna]). *)
Fixpoint obs (c : list (option Q)) : list Q :=
  match c with
  | [] => []
  | Some q :: t => q :: obs t
  | None :: t => obs t
  end.

Definition qsum (l : list Q) : Q := fold_right Qplus 0 l.

Definition qmean (l : list Q) : Q := qsum l / inject_Z (Z.of_nat (length l)).

(** [Series.mean()] skips NaN; the mean of no value is NaN. *)
Definition series_mean (c : list (option Q)) : option Q :=
  match obs c with
  | [] => None
  | vs => Some (qmean vs)
  end.

(** [Series.fillna(v)] on one cell. *)
Definition fillna (v : Q) (o : option Q) : option Q :=
  match o with None => Some v | Some x => Some x end.

(** The last [n] elements of a list ([Series.tail(n)]). *)
Definition lastn {A} (n : nat) (l : list A) : list A := skipn (length l - n) l.

End Column.

(* ------------------------------------------------------------------ *)
(** ** Player factor (P-factor): player_factor_engineer.calculate_player_ma5_factors *)

Module PFactor.
Import Column.

(** A player-match record with the one metric being averaged
    ([sot], [min] or [npxg]). *)
Record PlayerRow := {
  player_id : nat;
  match_datetime : Z;
  stat : option Q
}.

Definition MIN_PERIODS : nat := 5.

(** [x.rolling(window=MIN_PERIODS, min_periods=1, closed='left').mean()]
    evaluated at a position whose preceding group values are [prev]: the
    window is the [MIN_PERIODS] positions before the current one, the mean
    skips NaN and needs at least one observation. *)
Definition rolling_left_mean (window : nat) (prev : list (option Q)) : option Q :=
  series_mean (lastn window prev).

(** [df.sort_values(by=['player_id', 'match_datetime'])]: the key order. *)
Definition row_leb (a b : PlayerRow) : bool :=
  Nat.ltb (player_id a) (player_id b)
  || (Nat.eqb (player_id a) (player_id b)
      && Z.leb (match_datetime a) (match_datetime b)).

Fixpoint insert (x : PlayerRow) (l : list PlayerRow) : list PlayerRow :=
  match l with
  | [] => [x]
  | y :: t => if row_leb x y then x :: y :: t else y :: insert x t
  end.

Fixpoint sort_rows (l : list PlayerRow) : list PlayerRow :=
  match l with
  | [] => []
  | x :: t => insert x (sort_rows t)
  end.

Definition same_player (p : nat) (r : PlayerRow) : bool := Nat.eqb (player_id r) p.

(** [df.groupby('player_id')[metric].transform(rolling ...)] at position [i]
    of the sorted frame: the rolling window over the rows of the same player
    that precede position [i]. *)
Definition player_ma5_at (rows : list PlayerRow) (i : nat) : option Q :=
  match nth_error rows i with
  | None => None
  | Some r =>
      rolling_left_mean MIN_PERIODS
        (map stat (filter (same_player (player_id r)) (firstn i rows)))
  end.

(** [calculate_player_ma5_factors]: sort, then add the [<metric>_MA5]
    column; the result pairs each row of the sorted frame with its factor. *)
Definition calculate_player_ma5_factors (rows : list PlayerRow)
  : list (PlayerRow * option Q) :=
  let df := sort_rows rows in
  combine df (map (player_ma5_at df) (seq 0 (length df))).

(** The P-factor as the spec words it: the trailing mean over the (up to)
    5 latest records of the same player strictly earlier than the row, in
    timestamp order; undefined without such a record. *)
Definition strictly_earlier (r : PlayerRow) (r' : PlayerRow) : bool :=
  Nat.eqb (player_id r') (player_id r)
  && Z.ltb (match_datetime r') (match_datetime r).

Definition pfactor_spec (rows : list PlayerRow) (r : PlayerRow) : option Q :=
  series_mean (lastn 5 (map stat (sort_rows (filter (strictly_earlier r) rows)))).

(** The uniqueness key the pipeline's data validation checks:
    [(player_id, match_datetime)]. *)
Definition row_key (r : PlayerRow) : nat * Z := (player_id r, match_datetime r).

Definition keys_distinct (rows : list PlayerRow) : Prop := NoDup (map row_key rows).

(** Concrete tables. *)
Definition ex_r : PlayerRow := {| player_id := 1; match_datetime := 2; stat := Some 4 |}.
Definition ex_rows : list PlayerRow :=
  [ex_r; {| player_id := 1; match_datetime := 1; stat := Some 2 |};
   {| player_id := 2; match_datetime := 1; stat := Some 7 |}].

(** Two records of one player at the same kick-off. *)
Definition tie_a : PlayerRow := {| player_id := 1; match_datetime := 1; stat := Some 3 |}.
Definition tie_b : PlayerRow := {| player_id := 1; match_datetime := 1; stat := Some 5 |}.
Definition tie_a' : PlayerRow := {| player_id := 1; match_datetime := 1; stat := Some 4 |}.

End PFactor.

(* ------------------------------------------------------------------ *)
(** ** Opponent factor (O-factor): live_predictor_zip.calculate_ma5_factors *)

Module OFactor.
Import Column.

(** A row of the merged player table, restricted to the columns the
    opponent factor reads; teams are numbered. *)
Record MatchRow := {
  team_name : nat;
  home_team : nat;
  away_team : nat;
  team_side : string;
  match_datetime : Z;
  sot_conceded : option Q
}.

Definition MIN_PERIODS : nat := 5.

(** [np.where(team_side == 'home', away_team, home_team)] *)
Definition opponent_team (r : MatchRow) : nat :=
  if String.eqb (team_side r) "home" then away_team r else home_team r.

(** [sort_values('match_datetime')] (stable insertion sort). *)
Fixpoint insert_by_time (x : MatchRow) (l : list MatchRow) : list MatchRow :=
  match l with
  | [] => [x]
  | y :: t => if Z.leb (match_datetime x) (match_datetime y) then x :: y :: t
              else y :: insert_by_time x t
  end.

Fixpoint sort_by_time (l : list MatchRow) : list MatchRow :=
  match l with
  | [] => []
  | x :: t => insert_by_time x (sort_by_time t)
  end.

(** [df_processed[(team_name == opponent) & (match_datetime < row.match_datetime)]
    .sort_values('match_datetime')] *)
Definition opponent_history (df : list MatchRow) (row : MatchRow) : list MatchRow :=
  sort_by_time
    (filter (fun r => Nat.eqb (team_name r) (opponent_team row)
                      && Z.ltb (match_datetime r) (match_datetime row)) df).

(** The value put in [opponent_ma5_map[idx]] for one row. *)
Definition opp_ma5_raw (df : list MatchRow) (row : MatchRow) : option Q :=
  let h := opponent_history df row in
  if Nat.leb MIN_PERIODS (length h) then series_mean (map sot_conceded (lastn MIN_PERIODS h))
  else if Nat.ltb 0 (length h) then series_mean (map sot_conceded h)
  else None.

(** [historical_matches['sot_conceded'].mean()] over the rows where the
    metric is present; undefined when there is none. *)
Definition league_avg (df : list MatchRow) : option Q := series_mean (map sot_conceded df).

(** The O-factor as the specification words it: the opponent's own
    matches strictly before the row (the rows of [opponent_history], one
    per match date: the first row of each date), the metric averaged over
    the last [MIN_PERIODS] of these matches; the league-wide average when
    the opponent has no earlier match. *)
Fixpoint first_per_time (prev : option Z) (l : list MatchRow) : list MatchRow :=
  match l with
  | [] => []
  | x :: t =>
      match prev with
      | Some p => if Z.eqb p (match_datetime x) then first_per_time prev t
                  else x :: first_per_time (Some (match_datetime x)) t
      | None => x :: first_per_time (Some (match_datetime x)) t
      end
  end.

Definition opponent_matches (df : list MatchRow) (row : MatchRow) : list MatchRow :=
  first_per_time None (opponent_history df row).

Definition opp_ma5_spec (df : list MatchRow) (row : MatchRow) : option Q :=
  match opponent_matches df row with
  | [] => league_avg df
  | m => series_mean (map sot_conceded (lastn MIN_PERIODS m))
  end.

Definition is_missing (o : option Q) : bool :=
  match o with None => true | Some _ => false end.

(** The [sot_conceded_MA5] column: the per-row values, then the
    league-average fill when some value is missing and the league average
    exists. *)
Definition calculate_opp_ma5 (df : list MatchRow) : list (option Q) :=
  let raw := map (opp_ma5_raw df) df in
  if existsb is_missing raw then
    match league_avg df with
    | Some avg => map (fillna avg) raw
    | None => raw
    end
  else raw.

(** Concrete tables. Team 1 hosts team 2 at time 3; team 2's history is
    two matches with three player rows each. *)
Definition mk (team home away : nat) (side : string) (t : Z) (c : option Q) : MatchRow :=
  {| team_name := team; home_team := home; away_team := away; team_side := side;
     match_datetime := t; sot_conceded := c |}.

Definition ex_row : MatchRow := mk 1 1 2 "home" 3 None.
Definition ex_df : list MatchRow :=
  [mk 2 2 3 "home" 1 (Some 2); mk 2 2 3 "home" 1 (Some 2); mk 2 2 3 "home" 1 (Some 2);
   mk 2 4 2 "away" 2 (Some 6); mk 2 4 2 "away" 2 (Some 6); mk 2 4 2 "away" 2 (Some 6);
   ex_row].

(** A table where no row carries the defensive metric (the team-defence
    join matched nothing): one played and one scheduled row of team 1. *)
Definition nometric_df : list MatchRow :=
  [mk 1 1 3 "home" 1 None; ex_row].

End OFactor.

(* ------------------------------------------------------------------ *)
(** ** Feature normaliser at training time: feature_scaling.standardize_features
       and backtest_model.prepare_features *)

Module Scaling.
Import Column.

(** Population variance ([StandardScaler] uses ddof = 0). *)
Definition pop_var (l : list Q) : Q :=
  qsum (map (fun x => (x - qmean l) * (x - qmean l)) l) / inject_Z (Z.of_nat (length l)).

(** One entry of the persisted ScalingProfile ([training_stats.json]). *)
Record ScalerStats := { mean : Q; std : Q }.

(** [df[FEATURES_TO_SCALE].fillna(df[FEATURES_TO_SCALE].mean())] on one column. *)
Definition fillna_mean (c : list (option Q)) : list (option Q) :=
  match series_mean c with
  | Some m => map (fillna m) c
  | None => c
  end.

(** [df_scaled.loc[df[feature].isna(), feature_scaled] = np.nan] *)
Definition reapply_nan (orig scaled : list (option Q)) : list (option Q) :=
  map (fun p => match fst p with None => None | Some _ => snd p end) (combine orig scaled).

Section Fit.
(** [np.sqrt], only assumed to map positive numbers to positive numbers. *)
Variable sqrt : Q -> Q.

(** [StandardScaler.fit] on one column: NaN-aware mean and population
    variance; a constant column gets scale 1 ([_handle_zeros_in_scale]).
    [None] stands for the NaN statistics of an all-NaN column. *)
Definition scaler_fit (c : list (option Q)) : option ScalerStats :=
  match obs c with
  | [] => None
  | vs =>
      let v := pop_var vs in
      Some {| mean := qmean vs; std := if Qeq_bool v 0 then 1 else sqrt v |}
  end.

(** [StandardScaler.transform] of one cell. *)
Definition scaler_transform (st : ScalerStats) (o : option Q) : option Q :=
  option_map (fun x => (x - mean st) / std st) o.

(** [standardize_features] on one column of [FEATURES_TO_SCALE]: fill NaN
    with the column mean, fit and transform, put NaN back, and return the
    statistics that are persisted. *)
Definition standardize_column (c : list (option Q))
  : list (option Q) * option ScalerStats :=
  let filled := fillna_mean c in
  match scaler_fit filled with
  | Some st => (reapply_nan c (map (scaler_transform st) filled), Some st)
  | None => (c, None)
  end.

End Fit.

(** A row of the P-factor table fed to [feature_scaling.py]. *)
Record TrainRow := {
  sot_MA5 : option Q;
  sot_conceded_MA5 : option Q;
  summary_min : option Q;
  is_forward : option Q;
  is_defender : option Q;
  sot : option Q
}.

(** The same row with the two [_scaled] columns added. *)
Record ScaledRow := {
  raw : TrainRow;
  sot_MA5_scaled : option Q;
  sot_conceded_MA5_scaled : option Q
}.

(** The ScalingProfile: feature name to statistics ([None]: NaN). *)
Definition Profile := list (string * option ScalerStats).

(** [FEATURES_TO_SCALE = ['sot_MA5', 'sot_conceded_MA5']] *)
Definition standardize_features (sqrt : Q -> Q) (df : list TrainRow)
  : list ScaledRow * Profile :=
  let (s1, st1) := standardize_column sqrt (map sot_MA5 df) in
  let (s2, st2) := standardize_column sqrt (map sot_conceded_MA5 df) in
  (map (fun p => {| raw := fst p; sot_MA5_scaled := fst (snd p);
                    sot_conceded_MA5_scaled := snd (snd p) |})
       (combine df (combine s1 s2)),
   [("sot_MA5"%string, st1); ("sot_conceded_MA5"%string, st2)]).

(** [backtest_model.prepare_features]: drop rows with NaN in
    [PREDICTOR_COLUMNS + [TARGET_COLUMN]], add the constant first. *)
Definition prepare_row (r : ScaledRow) : list (list Q * Q) :=
  match sot_conceded_MA5_scaled r, sot_MA5_scaled r, summary_min (raw r),
        is_forward (raw r), is_defender (raw r), sot (raw r) with
  | Some a, Some b, Some c, Some d, Some e, Some y => [([1; a; b; c; d; e], y)]
  | _, _, _, _, _, _ => []
  end.

Definition prepare_features (rows : list ScaledRow) : list (list Q * Q) :=
  flat_map prepare_row rows.

(** A row whose six raw fields read by training are all defined. *)
Definition complete (t : TrainRow) : bool :=
  match sot_MA5 t, sot_conceded_MA5 t, summary_min t, is_forward t, is_defender t, sot t with
  | Some _, Some _, Some _, Some _, Some _, Some _ => true
  | _, _, _, _, _, _ => false
  end.

(** An approximation of [np.sqrt] by Newton iterations, used to run the
    pipeline on concrete data. *)
Definition newton_step (v x : Q) : Q := Qred ((x + v / x) / 2).

Fixpoint newton (n : nat) (v x : Q) : Q :=
  match n with
  | O => x
  | S n' => newton n' v (newton_step v x)
  end.

Definition qsqrt (v : Q) : Q := newton 3 v ((v + 1) / 2).

(** Concrete training tables. *)
Definition mkt (p o : option Q) : TrainRow :=
  {| sot_MA5 := p; sot_conceded_MA5 := o; summary_min := Some 90;
     is_forward := Some 1; is_defender := Some 0; sot := Some 1 |}.

Definition ex_train : list TrainRow :=
  [mkt (Some 0) (Some 4); mkt (Some 2) (Some 6); mkt None (Some 5)].

(** The number of NaN cells of a column. *)
Fixpoint count_none (c : list (option Q)) : nat :=
  match c with
  | [] => O
  | None :: t => S (count_none t)
  | Some _ :: t => count_none t
  end.


Definition ex_scaled_row : ScaledRow :=
  hd {| raw := mkt None None; sot_MA5_scaled := None; sot_conceded_MA5_scaled := None |}
     (fst (standardize_features qsqrt ex_train)).

End Scaling.

(* ------------------------------------------------------------------ *)
(** ** Live prediction service: qualification, scaling with the persisted
       ScalingProfile, and scoring (live_predictor_zip.py, live_predictor.py) *)

Module Live.
Import Column Scaling.
Local Open Scope string_scope.

(** Python exceptions the code can raise. A division performed with a zero
    divisor is made observable as [ZeroDivisionError]. *)
Inductive PyErr :=
| KeyError (c : string)
| ValueError (cols : list string)
| ZeroDivisionError.

Inductive Result (A : Type) :=
| Ok (a : A)
| Raise (e : PyErr).
Arguments Ok {A} a.
Arguments Raise {A} e.

Definition bind {A B} (m : Result A) (f : A -> Result B) : Result B :=
  match m with Ok a => f a | Raise e => Raise e end.

Notation "x <- m ;; f" := (bind m (fun x => f))
  (at level 61, m at next level, right associativity).

Fixpoint map_res {A B} (f : A -> Result B) (l : list A) : Result (list B) :=
  match l with
  | [] => Ok []
  | a :: t => b <- f a ;; bs <- map_res f t ;; Ok (b :: bs)
  end.

Fixpoint fold_res {A B} (f : A -> B -> Result A) (a : A) (l : list B) : Result A :=
  match l with
  | [] => Ok a
  | b :: t => a' <- f a b ;; fold_res f a' t
  end.

(** A DataFrame as named columns, in column order. *)
Definition Table := list (string * list (option Q)).

Fixpoint lookup {A} (k : string) (l : list (string * A)) : option A :=
  match l with
  | [] => None
  | (k', v) :: t => if String.eqb k' k then Some v else lookup k t
  end.

Definition has_col (df : Table) (c : string) : bool :=
  match lookup c df with Some _ => true | None => false end.

(** [df[c]] *)
Definition get_col (df : Table) (c : string) : Result (list (option Q)) :=
  match lookup c df with Some v => Ok v | None => Raise (KeyError c) end.

(** [df[c] = v]: replaces the column in place or appends it. *)
Fixpoint set_col (df : Table) (c : string) (v : list (option Q)) : Table :=
  match df with
  | [] => [(c, v)]
  | (k, w) :: t => if String.eqb k c then (k, v) :: t else (k, w) :: set_col t c v
  end.

Definition nrows (df : Table) : nat :=
  match df with [] => 0 | (_, v) :: _ => length v end.

(** [str.replace(pat, '')] for a non-empty [pat]. *)
Fixpoint remove_fuel (fuel : nat) (pat s : string) : string :=
  match fuel with
  | O => s
  | S f =>
      match s with
      | EmptyString => EmptyString
      | String ch rest =>
          if String.prefix pat s
          then remove_fuel f pat (substring (String.length pat) (String.length s) s)
          else String ch (remove_fuel f pat rest)
      end
  end.

Definition str_remove (pat s : string) : string := remove_fuel (String.length s) pat s.

Definition scaled_name (stem : string) : string := String.append stem "_scaled".

Definition py_div (a b : Q) : Result Q :=
  if Qeq_bool b 0 then Raise ZeroDivisionError else Ok (a / b).

(** [(df[stem] - mu) / sigma] on a Series: NaN stays NaN. *)
Definition sub_div (col : list (option Q)) (mu sigma : Q) : Result (list (option Q)) :=
  map_res (fun o => match o with
                    | None => Ok None
                    | Some x => q <- py_div (x - mu) sigma ;; Ok (Some q)
                    end) col.

(** The persisted statistics: [scaler_data.loc[stem, ...]]; a stem absent
    from the index is [None]; NaN statistics are [Some None]. *)

(** *** live_predictor_zip.py *)


Definition INFLATION_PREDICTOR_COLUMNS : list string :=
  ["sot_MA5_scaled"; "npxg_MA5_scaled"; "is_forward"; "is_defender"; "is_home"].



(** One iteration of the scaling loop:
    [df[stem_scaled] = (df[stem] - mu) / sigma if sigma != 0 else 0]. *)
Definition scale_stem_zip (profile : Profile) (df : Table) (stem : string) : Result Table :=
  match lookup stem profile with
  | None => Ok df
  | Some None =>
      col <- get_col df stem ;; Ok (set_col df (scaled_name stem) (map (fun _ => None) col))
  | Some (Some st) =>
      if negb (Qeq_bool (std st) 0)
      then col <- get_col df stem ;;
           v <- sub_div col (mean st) (std st) ;;
           Ok (set_col df (scaled_name stem) v)
      else Ok (set_col df (scaled_name stem) (repeat (Some 0) (nrows df)))
  end.



(** A fitted statsmodels result: [predict] multiplies the matrix by the
    parameter vector, which fails only when the widths differ. *)
Record TrainedModel := { exog_names : list string }.



(** *** live_predictor.py *)

Definition PREDICTOR_COLUMNS_LP : list string :=
  ["sot_conceded_MA5_scaled"; "tackles_att_3rd_MA5_scaled"; "sot_MA5_scaled";
   "min_MA5_scaled"; "summary_min"].

Definition scaled_feature_stems_lp : list string :=
  map (str_remove "_scaled")
      (filter (fun c => negb (String.eqb c "summary_min")) PREDICTOR_COLUMNS_LP).

(** [if sigma == 0: df[scaled] = 0 else: df[scaled] = (df[raw] - mu) / sigma] *)
Definition scale_stem_lp (profile : Profile) (df : Table) (stem : string) : Result Table :=
  match lookup stem profile with
  | None => Ok df
  | Some None =>
      col <- get_col df stem ;; Ok (set_col df (scaled_name stem) (map (fun _ => None) col))
  | Some (Some st) =>
      if Qeq_bool (std st) 0
      then Ok (set_col df (scaled_name stem) (repeat (Some 0) (nrows df)))
      else col <- get_col df stem ;;
           v <- sub_div col (mean st) (std st) ;;
           Ok (set_col df (scaled_name stem) v)
  end.

(** [scale_live_data] of live_predictor.py; [Ok None] is its [return None]. *)
Definition scale_live_data_lp (profile : Profile) (df_raw : Table) : Result (option Table) :=
  if forallb (has_col df_raw) scaled_feature_stems_lp
  then df1 <- fold_res (scale_stem_lp profile) df_raw scaled_feature_stems_lp ;;
       cols <- map_res (fun c => v <- get_col df1 c ;; Ok (c, v)) PREDICTOR_COLUMNS_LP ;;
       Ok (Some (("const", repeat (Some 1) (nrows df1)) :: cols))
  else Ok None.

(** *** Qualification for the next gameweek (get_live_gameweek_features of
    live_predictor_zip.py) *)

Record LiveRow := {
  status : string;
  matchweek : option Z;
  position_group : string;
  l_sot_MA5 : option Q;
  l_min_MA5 : option Q;
  l_npxg_MA5 : option Q;
  l_sot_conceded_MA5 : option Q
}.

Definition MIN_EXPECTED_MINUTES : Q := 15.
Definition MIN_SOT_MA5 : Q := 1 # 10.
Definition ATTACKING_DEFENDER_THRESHOLD : Q := 3 # 10.

(** The merged table has no [is_future] column, so [df.get('is_future',
    False) == True] is False and only the status selects a fixture. *)
Definition scheduled (r : LiveRow) : bool :=
  existsb (String.eqb (status r)) ["scheduled"; "fixture"; "upcoming"; "not started"].

(** [Series.min()] skipping NaN. *)
Fixpoint min_week (l : list (option Z)) : option Z :=
  match l with
  | [] => None
  | None :: t => min_week t
  | Some w :: t => match min_week t with Some m => Some (Z.min w m) | None => Some w end
  end.

(** [dropna(subset=REQUIRED_MA5_COLUMNS)] *)
Definition has_required (r : LiveRow) : bool :=
  match l_sot_MA5 r, l_min_MA5 r, l_npxg_MA5 r, l_sot_conceded_MA5 r with
  | Some _, Some _, Some _, Some _ => true
  | _, _, _, _ => false
  end.

(** [s >= t] on a float column: False on NaN. *)
Definition ge_col (o : option Q) (t : Q) : bool :=
  match o with Some x => Qle_bool t x | None => false end.

(** The qualified rows with their [summary_min] (= [min_MA5]). *)
Definition get_live_gameweek_features (df : list LiveRow) : list (LiveRow * option Q) :=
  let sched := filter scheduled df in
  match sched with
  | [] => []
  | _ =>
      let next := min_week (map matchweek sched) in
      let live := filter (fun r => match matchweek r, next with
                                   | Some w, Some n => Z.eqb w n
                                   | _, _ => false
                                   end) sched in
      let live := filter has_required live in
      let live := filter (fun r => ge_col (l_min_MA5 r) MIN_EXPECTED_MINUTES) live in
      let live := filter (fun r => ge_col (l_sot_MA5 r) MIN_SOT_MA5) live in
      let non_defenders := filter (fun r => String.eqb (position_group r) "Forward"
                                            || String.eqb (position_group r) "Midfielder") live in
      let attacking_defenders :=
        filter (fun r => String.eqb (position_group r) "Defender"
                         && ge_col (l_sot_MA5 r) ATTACKING_DEFENDER_THRESHOLD) live in
      map (fun r => (r, l_min_MA5 r)) (app non_defenders attacking_defenders)
  end.

(** Concrete live tables. *)
Definition mkl (st : string) (w : Z) (pg : string) (s m n o : option Q) : LiveRow :=
  {| status := st; matchweek := Some w; position_group := pg; l_sot_MA5 := s;
     l_min_MA5 := m; l_npxg_MA5 := n; l_sot_conceded_MA5 := o |}.

Definition ex_live : list LiveRow :=
  [mkl "scheduled" 7 "Forward" (Some 2) (Some 80) (Some (1 # 2)) (Some 4);
   mkl "scheduled" 7 "Midfielder" (Some 1) (Some 70) None (Some 4);
   mkl "finished" 6 "Forward" (Some 3) (Some 90) (Some 1) (Some 5)].

Definition ex_profile : Profile :=
  [("sot_conceded_MA5", Some {| mean := 4; std := 2 |});
   ("tackles_att_3rd_MA5", Some {| mean := 1; std := 1 |});
   ("sot_MA5", Some {| mean := 1; std := 1 |});
   ("npxg_MA5", Some {| mean := 0; std := 1 |})].

(** A live table with every column [PREDICTOR_COLUMNS] is built from but
    without [tackles_att_3rd_MA5]. *)
Definition ex_table : Table :=
  [("sot_conceded_MA5", [Some 6]); ("sot_MA5", [Some 2]); ("npxg_MA5", [Some (1 # 2)]);
   ("summary_min", [Some 80]); ("is_forward", [Some 1]); ("is_defender", [Some 0]);
   ("is_home", [Some 1])].




(** A model fitted on another feature list of the same width. *)
Definition ex_model : TrainedModel :=
  {| exog_names := ["const"; "sot_conceded_MA5_scaled"; "tackles_att_3rd_MA5_scaled";
                    "sot_MA5_scaled"; "min_MA5_scaled"; "summary_min"; "is_forward";
                    "is_home"] |}.

End Live.

(* ------------------------------------------------------------------ *)
(** ** Zero-Inflated Poisson scoring (run_predictions of live_predictor_zip.py) *)

Module ZIP.
Local Open Scope R_scope.

Definition dot (a b : list R) : R :=
  fold_right Rplus 0 (map (fun p => fst p * snd p) (combine a b)).

(** The fitted ZIP result: count coefficients, inflation (logit)
    coefficients, and [max(endog)] of the training target. *)
Record ZipModel := { beta : list R; gamma : list R; max_endog : nat }.

(** A scored row: [X] and [X_infl] (both with the constant first). *)
Record ZipRow := { x : list R; x_infl : list R }.

Definition lambda (m : ZipModel) (r : ZipRow) : R := exp (dot (x r) (beta m)).

Definition pi (m : ZipModel) (r : ZipRow) : R := / (1 + exp (- dot (x_infl r) (gamma m))).

(** The ZIP probability mass function. *)
Definition zip_pmf (m : ZipModel) (r : ZipRow) (k : nat) : R :=
  (if Nat.eqb k 0 then pi m r else 0)
  + (1 - pi m r) * exp (- lambda m r) * lambda m r ^ k / INR (fact k).

(** The model's own [P(count = 0)]. *)
Definition zip_prob_zero (m : ZipModel) (r : ZipRow) : R :=
  pi m r + (1 - pi m r) * exp (- lambda m r).

(** [model.predict(X, which='prob', exog_infl=...)]: one row per scored
    row, one column per count [0 .. max(endog)]. *)
Definition predict_prob (m : ZipModel) (rows : list ZipRow) : list (list R) :=
  map (fun r => map (zip_pmf m r) (seq 0 (S (max_endog m)))) rows.

(** [np.asarray(a).ravel()] (row-major). *)
Definition ravel (a : list (list R)) : list R := concat a.

(** [if len(a) > n: a = a[:n]] *)
Definition truncate_to (n : nat) (a : list R) : list R :=
  if Nat.ltb n (length a) then firstn n a else a.

(** [df_raw['P_SOT_1_Plus']]; [None] is the length-mismatch ValueError. *)
Definition p_sot_1_plus (m : ZipModel) (rows : list ZipRow) : option (list R) :=
  let prob_zero := truncate_to (length rows) (ravel (predict_prob m rows)) in
  if Nat.eqb (length prob_zero) (length rows)
  then Some (map (fun p => 1 - p) prob_zero)
  else None.

(** A model with zero coefficients (so [lambda = 1], [pi = 1/2]) trained
    on targets up to 2, scoring two rows. *)
Definition ex_model : ZipModel := {| beta := [0]; gamma := [0]; max_endog := 2 |}.
Definition ex_row : ZipRow := {| x := [1]; x_infl := [1] |}.
Definition ex_rows : list ZipRow := [ex_row; ex_row].

End ZIP.

(* ------------------------------------------------------------------ *)
(** ** Position codes (clean_and_enrich_data of live_predictor_zip.py,
       process_position_data of player_factor_engineer.py) *)

Module Position.
Import Column.
Local Open Scope string_scope.

Definition POSITION_MAPPING : list (string * string) :=
  [("GK", "Goalkeeper");
   ("DF", "Defender"); ("CB", "Defender"); ("LB", "Defender"); ("RB", "Defender");
   ("WB", "Defender");
   ("MF", "Midfielder"); ("CM", "Midfielder"); ("DM", "Midfielder"); ("AM", "Midfielder");
   ("LM", "Midfielder"); ("RM", "Midfielder");
   ("FW", "Forward"); ("LW", "Forward"); ("RW", "Forward")].

(** [position_code.map(POSITION_MAPPING)] on the code returned by
    [safe_extract_position] ([None]: NaN). *)
Definition map_position (code : option string) : option string :=
  match code with Some c => Live.lookup c POSITION_MAPPING | None => None end.

(** [... .fillna('Midfielder')] *)
Definition position_group_of (code : option string) : string :=
  match map_position code with Some g => g | None => "Midfielder" end.

(** clean_and_enrich_data: the group of each row, Goalkeepers removed. *)
Definition clean_and_enrich_data (codes : list (option string)) : list (option string * string) :=
  filter (fun p => negb (String.eqb (snd p) "Goalkeeper"))
         (map (fun c => (c, position_group_of c)) codes).

(** A row of the training table as process_position_data reads it. *)
Record PosRow := { player_id : nat; position : option string; sot : option Q }.

(** [df.groupby('player_id')['sot'].mean()] merged back on the row. *)
Definition player_avg_sot (df : list PosRow) (r : PosRow) : option Q :=
  series_mean (map sot (filter (fun r' => Nat.eqb (player_id r') (player_id r)) df)).

Definition ATTACKING_DEFENDER_THRESHOLD : Q := 3 # 10.

(** process_position_data: group (with the Midfielder default), then the
    hybrid filter; each kept row with its group. *)
Definition process_position_data (df : list PosRow) : list (PosRow * string) :=
  filter (fun p => let g := snd p in
                   (String.eqb g "Forward" || String.eqb g "Midfielder")
                   || (String.eqb g "Defender"
                       && Live.ge_col (player_avg_sot df (fst p)) ATTACKING_DEFENDER_THRESHOLD))
         (map (fun r => (r, position_group_of (position r))) df).

Definition ex_codes : list (option string) := [Some "FW"; Some "XX"; None; Some "GK"].

Definition ex_pos_rows : list PosRow :=
  [{| player_id := 1; position := Some "XX"; sot := Some 0 |};
   {| player_id := 2; position := Some "GK"; sot := Some 0 |}].

End Position.

(* ------------------------------------------------------------------ *)
(** ** Paginated fetch (utils/supabase_utils.fetch_with_deduplication) *)

Module Fetch.
Local Open Scope nat_scope.

(** A fetched record: its [id] (absent: [None]) and the rest of it. *)
Record Rec := { id : option Z; body : nat }.

(** The store's answer to [.range(offset, offset + limit - 1)]; [None]
    is an exception of the client. *)
Definition Pager := nat -> option (list Rec).

Definition limit : nat := 1000.

(** The [for record in data] loop: returns the new [seen_ids], the records
    appended to [all_data], and [new_records]. *)
Fixpoint dedup_page (seen : list Z) (data : list Rec) : list Z * list Rec * nat :=
  match data with
  | [] => (seen, [], 0)
  | r :: t =>
      match id r with
      | None => let '(s, a, n) := dedup_page seen t in (s, r :: a, S n)
      | Some i =>
          if existsb (Z.eqb i) seen then dedup_page seen t
          else let '(s, a, n) := dedup_page (i :: seen) t in (s, r :: a, S n)
      end
  end.

(** The [while True] loop, run for at most [fuel] requests. *)
Fixpoint fetch_loop (fuel : nat) (page : Pager) (offset : nat) (seen : list Z)
    (all_data : list Rec) : list Rec :=
  match fuel with
  | O => all_data
  | S f =>
      match page offset with
      | None => all_data
      | Some [] => all_data
      | Some data =>
          let '(seen', added, new_records) := dedup_page seen data in
          let all_data' := all_data ++ added in
          if Nat.ltb (length data) limit || Nat.eqb new_records 0 then all_data'
          else fetch_loop f page (offset + limit) seen' all_data'
      end
  end.

Definition fetch_with_deduplication (fuel : nat) (page : Pager) : list Rec :=
  fetch_loop fuel page 0 [] [].

(** The identifiers of a table. *)
Definition idents (l : list Rec) : list Z :=
  flat_map (fun r => match id r with Some i => [i] | None => [] end) l.

(** The fetch as the specification describes it: the rows of each page
    read are appended one by one to the table, a row being dropped when its
    identifier already occurs in the table (the first occurrence is kept,
    rows without identifier are all kept); the fetch stops at a failing,
    empty or short page, and at a page that added no row. *)
Definition add_if_new (acc : list Rec) (r : Rec) : list Rec :=
  match id r with
  | Some i => if existsb (Z.eqb i) (idents acc) then acc else acc ++ [r]
  | None => acc ++ [r]
  end.

Definition extend_unique (acc data : list Rec) : list Rec := fold_left add_if_new data acc.

Fixpoint fetch_spec (fuel : nat) (page : Pager) (offset : nat) (acc : list Rec) : list Rec :=
  match fuel with
  | O => acc
  | S f =>
      match page offset with
      | None => acc
      | Some [] => acc
      | Some data =>
          let acc' := extend_unique acc data in
          if Nat.ltb (length data) limit || Nat.eqb (length acc') (length acc) then acc'
          else fetch_spec f page (offset + limit) acc'
      end
  end.

Fixpoint zrange (start : Z) (n : nat) : list Z :=
  match n with O => [] | S n' => start :: zrange (Z.succ start) n' end.

(** A store of 2001 records with ids 0 .. 2000, read without overlap. *)
Definition store : list Rec := map (fun i => {| id := Some i; body := 0 |}) (zrange 0 2001).

Definition plain_pager : Pager := fun o => Some (firstn limit (skipn o store)).

(** The same store when the range at offset 1000 returns the first page
    again and later ranges lag one page behind. *)
Definition overlap_pager : Pager :=
  fun o => if Nat.ltb o limit then plain_pager o else plain_pager (o - limit).

End Fetch.

(* ------------------------------------------------------------------ *)
(** ** The live service's entry point (main of live_predictor.py) *)

Module Main.
Import Scaling Live.
Local Open Scope string_scope.

(** A CSV file as [to_csv(index=False)] writes it. *)
Record Csv := { header : list string; rows : list (list string) }.

Definition REPORT_COLUMNS : list string :=
  ["player_id"; "player_name"; "team_name"; "opponent_team"; "E_SOT"; "P_SOT_1_Plus";
   "min_MA5"; "sot_MA5"; "match_datetime"].

(** The [rename] of [run_predictions]' report. *)
Definition rename_report (c : string) : string :=
  match lookup c [("min_MA5", "expected_minutes"); ("sot_MA5", "recent_sot_avg");
                  ("team_name", "team"); ("opponent_team", "opponent")] with
  | Some c' => c'
  | None => c
  end.

Definition empty_cols : list string :=
  ["player_id"; "player_name"; "team"; "opponent"; "E_SOT"; "P_SOT_1_Plus";
   "expected_minutes"; "recent_sot_avg"; "match_datetime"].

Section Pipeline.
(** The stages [main] calls; each may raise. *)
Variables Raw Processed : Type.
Variable load_artifacts : Result (TrainedModel * Profile).
Variable load_and_merge_raw_data : Result Raw.
Variable raw_empty : Raw -> bool.
Variable calculate_ma5_factors : Raw -> Result Processed.
Variable get_live_gameweek_features : Processed -> Result Table.
Variable run_predictions : TrainedModel -> Table -> Table -> Result (option Csv).

(** [main]: [Ok f] is a normal return having written [f] ([None]: no
    file); [Raise e] an uncaught exception. The exceptions of
    [load_artifacts] are caught. *)
Definition main : Result (option Csv) :=
  match load_artifacts with
  | Raise _ => Ok None
  | Ok (model, profile) =>
      raw <- load_and_merge_raw_data ;;
      if raw_empty raw then Ok None
      else processed <- calculate_ma5_factors raw ;;
           live <- get_live_gameweek_features processed ;;
           if Nat.eqb (nrows live) 0
           then Ok (Some {| header := empty_cols; rows := [] |})
           else scaled <- scale_live_data_lp profile live ;;
                match scaled with
                | None => Ok None
                | Some X => run_predictions model X live
                end
  end.

End Pipeline.

End Main.

(* ------------------------------------------------------------------ *)
(** ** Poisson scoring (run_predictions of live_predictor.py, and of
       live_predictor_zip.py with its default model_type 'poisson') *)

Module Poisson.
Local Open Scope R_scope.

(** A fitted Poisson GLM with the log link: its coefficients, the
    constant's first. *)
Record PoissonModel := { coef : list R }.

(** [model.predict(X)] on one row of the scaled matrix. *)
Definition e_sot (m : PoissonModel) (x : list R) : R := exp (ZIP.dot x (coef m)).

(** [scipy.stats.poisson.pmf(k, mu)] *)
Definition poisson_pmf (k : nat) (mu : R) : R := exp (- mu) * mu ^ k / INR (fact k).

(** [scipy.stats.poisson.cdf(k, mu)] *)
Fixpoint poisson_cdf (k : nat) (mu : R) : R :=
  match k with
  | O => poisson_pmf 0 mu
  | S k' => poisson_cdf k' mu + poisson_pmf (S k') mu
  end.

Inductive Confidence := low | medium | high.

(** [pd.cut(E_SOT, bins=[0, 0.4, 0.8, inf], labels=['low', 'medium', 'high'])]:
    right-closed bins; a value outside (0, inf] gets NaN ([None]). *)
Definition confidence_of (e : R) : option Confidence :=
  if Rle_dec e 0 then None
  else if Rle_dec e (2 / 5) then Some low
  else if Rle_dec e (4 / 5) then Some medium
  else Some high.

(** The columns the Poisson branch of run_predictions (live_predictor_zip.py)
    adds to one scored row. *)
Record PoissonPrediction := {
  E_SOT : R;
  P_SOT_0 : R;
  P_SOT_1_Plus : R;
  P_SOT_2_Plus : R;
  P_SOT_3_Plus : R;
  P_SOT_4_Plus : R;
  confidence : option Confidence
}.

Definition predict_row (m : PoissonModel) (x : list R) : PoissonPrediction :=
  let e := e_sot m x in
  {| E_SOT := e;
     P_SOT_0 := poisson_pmf 0 e;
     P_SOT_1_Plus := 1 - poisson_pmf 0 e;
     P_SOT_2_Plus := 1 - poisson_cdf 1 e;
     P_SOT_3_Plus := 1 - poisson_cdf 2 e;
     P_SOT_4_Plus := 1 - poisson_cdf 3 e;
     confidence := confidence_of e |}.

(** [df_raw['P_SOT_1_Plus'] = 1 - np.exp(-df_raw['E_SOT'])] of live_predictor.py. *)
Definition p_sot_1_plus_lp (m : PoissonModel) (x : list R) : R := 1 - exp (- e_sot m x).

End Poisson.

(* ------------------------------------------------------------------ *)
(** ** live_predictor.py: its O-factor and its qualification step *)

Module LiveLP.
Import Column OFactor.
Local Open Scope string_scope.

(** calculate_ma5_factors of live_predictor.py:
    [df.groupby('opponent_team')['sot_conceded'].transform(lambda x:
    x.rolling(window=MIN_PERIODS, min_periods=1, closed='left').mean())],
    on the table in its row order; the value at position [i]. The
    [sot_conceded] of a row is the one of the row's own team (the
    team-defence join is on [team_name]). *)
Definition lp_opp_ma5_at (df : list MatchRow) (i : nat) : option Q :=
  match nth_error df i with
  | None => None
  | Some r =>
      PFactor.rolling_left_mean MIN_PERIODS
        (map sot_conceded
           (filter (fun r' => Nat.eqb (opponent_team r') (opponent_team r)) (firstn i df)))
  end.

Definition lp_calculate_opp_ma5 (df : list MatchRow) : list (option Q) :=
  map (lp_opp_ma5_at df) (seq 0 (length df)).

(** The same row with another [sot_conceded] value. *)
Definition with_sot_conceded (r : MatchRow) (v : option Q) : MatchRow :=
  {| team_name := team_name r; home_team := home_team r; away_team := away_team r;
     team_side := team_side r; match_datetime := match_datetime r; sot_conceded := v |}.

(** A row whose side, team and fixture agree. *)
Definition side_consistent (r : MatchRow) : Prop :=
  (team_side r = "home" -> team_name r = home_team r)
  /\ (team_side r <> "home" -> team_name r = away_team r)
  /\ home_team r <> away_team r.

(** A row of the processed table of live_predictor.py as
    get_live_gameweek_features reads it. *)
Record LiveRowLP := {
  lp_status : string;
  lp_matchweek : option Z;
  lp_sot_MA5 : option Q;
  lp_min_MA5 : option Q;
  lp_sot_conceded_MA5 : option Q;
  lp_tackles_att_3rd_MA5 : option Q
}.

(** [status.isin([...])]; the table has no [is_future] column. *)
Definition scheduled_lp (r : LiveRowLP) : bool :=
  existsb (String.eqb (lp_status r)) ["scheduled"; "fixture"; "upcoming"; "not started"].

(** [dropna(subset=['sot_MA5', 'min_MA5', 'sot_conceded_MA5', 'tackles_att_3rd_MA5'])] *)
Definition has_required_lp (r : LiveRowLP) : bool :=
  match lp_sot_MA5 r, lp_min_MA5 r, lp_sot_conceded_MA5 r, lp_tackles_att_3rd_MA5 r with
  | Some _, Some _, Some _, Some _ => true
  | _, _, _, _ => false
  end.

(** get_live_gameweek_features of live_predictor.py: the qualified rows,
    each with its [summary_min] (= [min_MA5]); every early
    [return pd.DataFrame()] is the empty result. *)
Definition get_live_gameweek_features_lp (df : list LiveRowLP) : list (LiveRowLP * option Q) :=
  let sched := filter scheduled_lp df in
  match sched with
  | [] => []
  | _ =>
      let next := Live.min_week (map lp_matchweek sched) in
      let live := filter (fun r => match lp_matchweek r, next with
                                   | Some w, Some n => Z.eqb w n
                                   | _, _ => false
                                   end) sched in
      match filter has_required_lp live with
      | [] => []
      | live1 =>
          match filter (fun r => Live.ge_col (lp_min_MA5 r) Live.MIN_EXPECTED_MINUTES) live1 with
          | [] => []
          | live2 =>
              match filter (fun r => Live.ge_col (lp_sot_MA5 r) Live.MIN_SOT_MA5) live2 with
              | [] => []
              | live3 => map (fun r => (r, lp_min_MA5 r)) live3
              end
          end
      end
  end.

(** Concrete tables. Team 1 hosts team 2 at time 3; before that, team 3
    played team 2 twice and team 2 played team 4. *)
Definition ex_opp_df : list MatchRow :=
  [mk 3 3 2 "home" 1 (Some 4); mk 2 3 2 "away" 1 (Some 1);
   mk 2 2 4 "home" 2 (Some 0); mk 4 2 4 "away" 2 (Some 3);
   mk 3 2 3 "away" 2 (Some 6); mk 1 1 2 "home" 3 None].

Definition mklp (st : string) (w : Z) (s m o t : option Q) : LiveRowLP :=
  {| lp_status := st; lp_matchweek := Some w; lp_sot_MA5 := s; lp_min_MA5 := m;
     lp_sot_conceded_MA5 := o; lp_tackles_att_3rd_MA5 := t |}.

Definition ex_live_lp : list LiveRowLP :=
  [mklp "scheduled" 8 (Some (1 # 5)) (Some 60) (Some 3) (Some 2);
   mklp "scheduled" 9 (Some 2) (Some 90) (Some 3) (Some 2);
   mklp "finished" 7 (Some 2) (Some 90) (Some 3) (Some 2)].

End LiveLP.

(* ------------------------------------------------------------------ *)
(** ** Position-code parsing (safe_extract_position, identical in
       player_factor_engineer.py and live_predictor_zip.py) *)

Module PositionParse.
Local Open Scope char_scope.

(** Python text of code points below 128, as a list of characters. *)
Definition text := list ascii.

(** [str.isspace()] on a code point below 128. *)
Definition is_space (ch : ascii) : bool :=
  let n := nat_of_ascii ch in
  (Nat.leb 9 n && Nat.leb n 13) || (Nat.leb 28 n && Nat.leb n 31) || Nat.eqb n 32.

Fixpoint dropwhile (p : ascii -> bool) (s : text) : text :=
  match s with
  | [] => []
  | c :: t => if p c then dropwhile p t else s
  end.

(** [str.strip(chars)] with the characters given by [p]. *)
Definition strip_by (p : ascii -> bool) (s : text) : text :=
  rev (dropwhile p (rev (dropwhile p s))).

(** [str.strip()] *)
Definition strip (s : text) : text := strip_by is_space s.

(** [str.upper()] on code points below 128. *)
Definition upper_char (ch : ascii) : ascii :=
  let n := nat_of_ascii ch in
  if Nat.leb 97 n && Nat.leb n 122 then ascii_of_nat (n - 32) else ch.

Definition upper (s : text) : text := map upper_char s.

(** [s.split(',')[0]] *)
Fixpoint before_comma (s : text) : text :=
  match s with
  | [] => []
  | c :: t => if Ascii.eqb c "," then [] else c :: before_comma t
  end.

(** The double-quote character (code point 34). *)
Definition dquote : ascii := ascii_of_nat 34.

Definition startswith_bracket_quote (s : text) : bool :=
  match s with a :: b :: _ => Ascii.eqb a "[" && Ascii.eqb b dquote | _ => false end.

Definition endswith_bracket (s : text) : bool :=
  match rev s with "]" :: _ => true | _ => false end.

(** The characters of the argument of [strip]: opening bracket, double
    quote, space, closing bracket. *)
Definition bracket_quote_space (ch : ascii) : bool :=
  Ascii.eqb ch "[" || Ascii.eqb ch dquote || Ascii.eqb ch " " || Ascii.eqb ch "]".

Section Extract.
(** [ast.literal_eval]: [Some l] when it returns the list of strings [l],
    [None] when it raises ValueError or SyntaxError. *)
Variable literal_eval : text -> option (list text).

(** [safe_extract_position]; [None] on a NaN cell. *)
Definition safe_extract_position (pos : option text) : option text :=
  match pos with
  | None => None
  | Some raw =>
      let s := strip raw in
      let plain := upper (strip (before_comma s)) in
      if startswith_bracket_quote s && endswith_bracket s then
        match literal_eval s with
        | Some (first :: _) => Some (upper (strip first))
        | Some [] => Some plain
        | None =>
            let cleaned := filter (fun ch => negb (Ascii.eqb ch dquote))
                                  (strip_by bracket_quote_space s) in
            Some (upper (strip (before_comma cleaned)))
        end
      else Some plain
  end.

End Extract.

(** [ch.islower()] on a code point below 128. *)
Definition is_lower (ch : ascii) : bool :=
  Nat.leb 97 (nat_of_ascii ch) && Nat.leb (nat_of_ascii ch) 122.

(** A text of code points below 128 (the domain of the definitions above). *)
Definition ascii7 (s : text) : bool := forallb (fun ch => Nat.ltb (nat_of_ascii ch) 128) s.

(** The form of a clean position code: no comma, no lower-case letter, no
    white space at either end. *)
Definition clean_code (s : text) : bool :=
  negb (existsb (fun ch => Ascii.eqb ch ",") s)
  && forallb (fun ch => negb (is_lower ch)) s
  && match s with [] => true | ch :: _ => negb (is_space ch) end
  && match rev s with [] => true | ch :: _ => negb (is_space ch) end.

(** The corrupted cell [["fw", "mf"]]. *)
Definition ex_bracketed : text :=
  ["["; dquote; "f"; "w"; dquote; ","; " "; dquote; "m"; "f"; dquote; "]"].

End PositionParse.

(* ================================================================== *)
(** * Proofs *)

(** ** C1: the P-factor *)

Module PFactorFacts.
Import Column PFactor.

Definition leb_rel (a b : PlayerRow) : Prop := row_leb a b = true.

Lemma row_leb_trans : Transitive leb_rel.
Proof.
  intros a b c; unfold leb_rel, row_leb.
  rewrite !orb_true_iff, !andb_true_iff, !Nat.ltb_lt, !Nat.eqb_eq, !Z.leb_le.
  lia.
Qed.

Lemma row_leb_total a b : row_leb a b = false -> row_leb b a = true.
Proof.
  unfold row_leb.
  rewrite orb_false_iff, andb_false_iff, orb_true_iff, andb_true_iff,
    Nat.ltb_ge, Nat.ltb_lt, Nat.eqb_eq, Nat.eqb_neq, Z.leb_gt, Z.leb_le.
  lia.
Qed.

Lemma insert_perm x l : Permutation (insert x l) (x :: l).
Proof.
  induction l as [|y t IH]; simpl; [reflexivity|].
  destruct (row_leb x y); [reflexivity|].
  eapply perm_trans; [apply perm_skip, IH| apply perm_swap].
Qed.

Lemma sort_perm l : Permutation (sort_rows l) l.
Proof.
  induction l as [|x t IH]; simpl; [reflexivity|].
  eapply perm_trans; [apply insert_perm| apply perm_skip, IH].
Qed.

Lemma insert_hdrel y x l :
  HdRel leb_rel y l -> leb_rel y x -> HdRel leb_rel y (insert x l).
Proof.
  destruct l as [|z l]; simpl; intros H Hyx; [constructor; exact Hyx|].
  destruct (row_leb x z); constructor; [exact Hyx|].
  inversion H; assumption.
Qed.

Lemma insert_sorted x l : Sorted leb_rel l -> Sorted leb_rel (insert x l).
Proof.
  induction 1 as [|y t Ht IH Hy]; simpl.
  - repeat constructor.
  - destruct (row_leb x y) eqn:E.
    + constructor; [constructor; assumption| constructor; exact E].
    + constructor; [exact IH|].
      apply insert_hdrel; [exact Hy| apply row_leb_total, E].
Qed.

Lemma sort_ssorted l : StronglySorted leb_rel (sort_rows l).
Proof.
  apply Sorted_StronglySorted; [exact row_leb_trans|].
  induction l as [|x t IH]; simpl; [constructor| apply insert_sorted, IH].
Qed.

Lemma insert_head x l :
  (forall z, In z l -> row_leb x z = true) -> insert x l = x :: l.
Proof.
  destruct l as [|z l]; simpl; intros H; [reflexivity|].
  rewrite H by (left; reflexivity); reflexivity.
Qed.

(** Filtering commutes with the (stable) sort. *)
Lemma filter_insert (f : PlayerRow -> bool) x l :
  StronglySorted leb_rel l ->
  filter f (insert x l) = if f x then insert x (filter f l) else filter f l.
Proof.
  induction l as [|y t IH]; intros Hs; simpl.
  - destruct (f x); reflexivity.
  - apply StronglySorted_inv in Hs as [Ht Hy].
    rewrite Forall_forall in Hy.
    destruct (row_leb x y) eqn:Exy; simpl.
    + destruct (f x) eqn:Fx, (f y) eqn:Fy; simpl; rewrite ?Exy; try reflexivity.
      symmetry; apply insert_head; intros z Hz.
      apply filter_In in Hz as [Hz _].
      apply (row_leb_trans x y z); [exact Exy| apply Hy, Hz].
    + rewrite (IH Ht).
      destruct (f x) eqn:Fx, (f y) eqn:Fy; simpl; rewrite ?Exy; reflexivity.
Qed.

Lemma filter_sort (f : PlayerRow -> bool) l :
  filter f (sort_rows l) = sort_rows (filter f l).
Proof.
  induction l as [|x t IH]; simpl; [reflexivity|].
  rewrite filter_insert by apply sort_ssorted.
  rewrite IH; destruct (f x); reflexivity.
Qed.

Lemma ssorted_app_cons (A B : list PlayerRow) r :
  StronglySorted leb_rel (A ++ r :: B) ->
  (forall a, In a A -> row_leb a r = true) /\ (forall b, In b B -> row_leb r b = true).
Proof.
  induction A as [|a A IH]; simpl; intros H.
  - apply StronglySorted_inv in H as [_ H]; rewrite Forall_forall in H.
    split; [intros _ []| exact H].
  - apply StronglySorted_inv in H as [H Ha]; rewrite Forall_forall in Ha.
    destruct (IH H) as [H1 H2]; split; [|exact H2].
    intros a' [<-|Ha']; [|auto].
    apply Ha, in_or_app; right; left; reflexivity.
Qed.

Lemma filter_all_false {A} (f : A -> bool) l :
  (forall x, In x l -> f x = false) -> filter f l = [].
Proof.
  induction l as [|x t IH]; simpl; intros H; [reflexivity|].
  rewrite H by (left; reflexivity); apply IH; auto.
Qed.

(** In the sorted frame, with distinct [(player_id, match_datetime)] keys,
    the rows of the same player before position [i] are exactly the rows of
    that player strictly earlier in time. *)
Lemma prefix_same_player_is_strictly_earlier S i r :
  StronglySorted leb_rel S -> NoDup (map row_key S) -> nth_error S i = Some r ->
  filter (same_player (player_id r)) (firstn i S) = filter (strictly_earlier r) S.
Proof.
  intros Hs Hd Hi.
  destruct (nth_error_split S i Hi) as (A & B & -> & HA); subst i.
  rewrite firstn_app, Nat.sub_diag, firstn_all; simpl; rewrite app_nil_r.
  destruct (ssorted_app_cons A B r Hs) as [HAr HrB].
  rewrite map_app in Hd; simpl in Hd; apply NoDup_remove_2 in Hd.
  rewrite filter_app; simpl.
  assert (Err : strictly_earlier r r = false)
    by (unfold strictly_earlier; rewrite Z.ltb_irrefl, andb_false_r; reflexivity).
  rewrite Err.
  rewrite (filter_all_false (strictly_earlier r) B), app_nil_r.
  - apply filter_ext_in; intros a Ha.
    assert (Hk : row_key a <> row_key r).
    { intros E; apply Hd, in_or_app; left; rewrite <- E; apply in_map, Ha. }
    specialize (HAr a Ha).
    unfold same_player, strictly_earlier, row_leb, row_key in *.
    destruct (Nat.eqb_spec (player_id a) (player_id r)) as [E|E]; simpl; [|reflexivity].
    rewrite orb_true_iff, andb_true_iff, Nat.ltb_lt, Z.leb_le in HAr.
    symmetry; apply Z.ltb_lt.
    assert (match_datetime a <> match_datetime r) by (intros E'; apply Hk; rewrite E, E'; reflexivity).
    destruct HAr as [HAr|[_ HAr]]; lia.
  - intros b Hb; specialize (HrB b Hb).
    unfold strictly_earlier, row_leb in *.
    destruct (Nat.eqb_spec (player_id b) (player_id r)) as [E|E]; simpl; [|reflexivity].
    rewrite orb_true_iff, andb_true_iff, Nat.ltb_lt, Nat.eqb_eq, Z.leb_le in HrB.
    apply Z.ltb_ge; lia.
Qed.

Lemma nth_error_combine {A B} (l1 : list A) (l2 : list B) n a b :
  nth_error (combine l1 l2) n = Some (a, b) ->
  nth_error l1 n = Some a /\ nth_error l2 n = Some b.
Proof.
  revert l2 n; induction l1 as [|x t IH]; intros [|y l2] [|n]; simpl;
    try discriminate; [intros H; inversion H; auto| apply IH].
Qed.

Lemma in_calculate rows r f :
  In (r, f) (calculate_player_ma5_factors rows) ->
  exists i, nth_error (sort_rows rows) i = Some r /\ f = player_ma5_at (sort_rows rows) i.
Proof.
  unfold calculate_player_ma5_factors; intros H.
  apply In_nth_error in H as [n Hn].
  apply nth_error_combine in Hn as [H1 H2].
  rewrite nth_error_map, nth_error_seq in H2.
  destruct (Nat.ltb n _); simpl in H2; inversion H2; subst.
  exists n; split; [exact H1| reflexivity].
Qed.

Lemma keys_distinct_sort rows : keys_distinct rows -> NoDup (map row_key (sort_rows rows)).
Proof.
  intros Hd; eapply Permutation_NoDup; [|exact Hd].
  apply Permutation_map, Permutation_sym, sort_perm.
Qed.

Lemma strictly_earlier_before r l :
  filter (strictly_earlier r)
    (filter (fun x => Z.ltb (match_datetime x) (match_datetime r)) l)
  = filter (strictly_earlier r) l.
Proof.
  induction l as [|x t IH]; simpl; [reflexivity|].
  destruct (Z.ltb (match_datetime x) (match_datetime r)) eqn:E; simpl.
  - destruct (strictly_earlier r x); rewrite IH; reflexivity.
  - unfold strictly_earlier at 2; rewrite E, andb_false_r; exact IH.
Qed.

Lemma player_ma5_eq_spec rows r f :
  keys_distinct rows ->
  In (r, f) (calculate_player_ma5_factors rows) ->
  f = pfactor_spec rows r.
Proof.
  intros Hd Hin.
  destruct (in_calculate _ _ _ Hin) as (i & Hi & ->).
  unfold player_ma5_at; rewrite Hi.
  rewrite (prefix_same_player_is_strictly_earlier _ _ _ (sort_ssorted rows)
             (keys_distinct_sort rows Hd) Hi).
  rewrite filter_sort; reflexivity.
Qed.

(** C1 (amended): with the [(player_id, match_datetime)] keys distinct, the
    P-factor of each row of the output is the trailing mean (NaN skipped) of
    the stat over the up-to-5 latest records of that player strictly earlier
    than the row, undefined when there is none with a value. *)
Theorem player_ma5_strictly_earlier rows r f :
  keys_distinct rows ->
  In (r, f) (calculate_player_ma5_factors rows) ->
  f = pfactor_spec rows r.
Proof.
  intros Hd Hin.
  destruct (in_calculate _ _ _ Hin) as (i & Hi & ->).
  unfold player_ma5_at; rewrite Hi.
  rewrite (prefix_same_player_is_strictly_earlier _ _ _ (sort_ssorted rows)
             (keys_distinct_sort rows Hd) Hi).
  rewrite filter_sort; reflexivity.
Qed.

(** No lookahead: two inputs with distinct keys that agree on every record
    before [T] give the same P-factor to a row of the same player at [T],
    whatever records at or after [T] contain. *)
Lemma player_ma5_no_lookahead rows rows' T r r' f f' :
  keys_distinct rows -> keys_distinct rows' ->
  filter (fun x => Z.ltb (match_datetime x) T) rows
    = filter (fun x => Z.ltb (match_datetime x) T) rows' ->
  In (r, f) (calculate_player_ma5_factors rows) ->
  In (r', f') (calculate_player_ma5_factors rows') ->
  player_id r = player_id r' -> match_datetime r = T -> match_datetime r' = T ->
  f = f'.
Proof.
  intros Hd Hd' Hpre Hin Hin' Hp Ht Ht'.
  rewrite (player_ma5_eq_spec _ _ _ Hd Hin), (player_ma5_eq_spec _ _ _ Hd' Hin').
  unfold pfactor_spec.
  rewrite <- (strictly_earlier_before r rows), <- (strictly_earlier_before r' rows').
  rewrite Ht, Ht', Hpre.
  replace (filter (strictly_earlier r) _) with
          (filter (strictly_earlier r') (filter (fun x => Z.ltb (match_datetime x) T) rows'));
    [reflexivity|].
  apply filter_ext; intros x; unfold strictly_earlier; rewrite Hp, Ht, Ht'; reflexivity.
Qed.

Lemma player_ma5_strictly_earlier_witness :
  keys_distinct ex_rows
  /\ In (ex_r, Some 2) (calculate_player_ma5_factors ex_rows)
  /\ Some 2 = pfactor_spec ex_rows ex_r.
Proof.
  assert (H1 : keys_distinct ex_rows)
    by (unfold keys_distinct; simpl; repeat constructor; simpl; intuition discriminate).
  assert (H2 : In (ex_r, Some 2) (calculate_player_ma5_factors ex_rows))
    by (vm_compute; tauto).
  split; [exact H1| split; [exact H2|]].
  exact (player_ma5_strictly_earlier ex_rows ex_r (Some 2) H1 H2).
Defined.

(** C1 as stated fails when a player has two records with the same
    timestamp: the second one's window holds the first, which is not
    strictly earlier, and changing the first (timestamp [>= T]) changes the
    factor at [T]. *)
Lemma player_ma5_tie_counterexample :
  In (tie_b, Some 3) (calculate_player_ma5_factors [tie_a; tie_b])
  /\ pfactor_spec [tie_a; tie_b] tie_b = None
  /\ In (tie_b, Some 4) (calculate_player_ma5_factors [tie_a'; tie_b]).
Proof. vm_compute; tauto. Qed.

End PFactorFacts.

(** ** C2: the O-factor *)

Module OFactorFacts.
Import Column OFactor.

Lemma nth_error_map_some {A B} (f : A -> B) l i x :
  nth_error l i = Some x -> nth_error (map f l) i = Some (f x).
Proof. intros H; rewrite nth_error_map, H; reflexivity. Qed.

Lemma existsb_nth {A} (p : A -> bool) l i x :
  nth_error l i = Some x -> p x = true -> existsb p l = true.
Proof.
  intros H Hp; apply existsb_exists; exists x; split; [|exact Hp].
  eapply nth_error_In; exact H.
Qed.

(** The O-factor of row [i]: its own value when it has one, otherwise the
    league average (which is itself undefined when no row has the metric). *)
Lemma calculate_opp_ma5_at df i row :
  nth_error df i = Some row ->
  nth_error (calculate_opp_ma5 df) i =
    Some (match opp_ma5_raw df row with
          | Some v => Some v
          | None => league_avg df
          end).
Proof.
  intros Hi; unfold calculate_opp_ma5.
  pose proof (nth_error_map_some (opp_ma5_raw df) df i row Hi) as Hr.
  destruct (existsb is_missing (map (opp_ma5_raw df) df)) eqn:Ex.
  - destruct (league_avg df) as [avg|] eqn:La.
    + rewrite (nth_error_map_some (fillna avg) _ _ _ Hr).
      destruct (opp_ma5_raw df row); reflexivity.
    + rewrite Hr; destruct (opp_ma5_raw df row); reflexivity.
  - rewrite Hr; destruct (opp_ma5_raw df row) eqn:E; [reflexivity|].
    rewrite (existsb_nth is_missing _ i None Hr) in Ex by reflexivity; discriminate.
Qed.

Lemma opp_ma5_raw_no_history df row :
  opponent_history df row = [] -> opp_ma5_raw df row = None.
Proof. unfold opp_ma5_raw; intros ->; reflexivity. Qed.

End OFactorFacts.

(* ------------------------------------------------------------------ *)
Module LiveFacts.
Import Column Scaling Live.
Local Open Scope string_scope.

Lemma lookup_set_col_eq (df : Table) c v : lookup c (set_col df c v) = Some v.
Proof.
  induction df as [|[k w] t IH]; simpl.
  - rewrite String.eqb_refl; reflexivity.
  - destruct (String.eqb_spec k c) as [->|Hne]; simpl.
    + rewrite String.eqb_refl; reflexivity.
    + destruct (String.eqb_spec k c); [contradiction|exact IH].
Qed.

Lemma lookup_set_col_neq (df : Table) c c' v :
  c <> c' -> lookup c' (set_col df c v) = lookup c' df.
Proof.
  intros Hne; induction df as [|[k w] t IH]; simpl.
  - destruct (String.eqb_spec c c'); [contradiction|reflexivity].
  - destruct (String.eqb_spec k c) as [->|Hk]; simpl.
    + destruct (String.eqb_spec c c'); [contradiction|reflexivity].
    + rewrite IH; reflexivity.
Qed.

Lemma lookup_set_col (df : Table) c c' v :
  lookup c' (set_col df c v) = if String.eqb c c' then Some v else lookup c' df.
Proof.
  destruct (String.eqb_spec c c') as [<-|Hne].
  - apply lookup_set_col_eq.
  - apply lookup_set_col_neq; exact Hne.
Qed.

Lemma get_col_ok df c v : get_col df c = Ok v -> lookup c df = Some v.
Proof. unfold get_col; destruct (lookup c df); congruence. Qed.

Lemma map_res_ok {A B} (f : A -> Result B) (g : A -> B) l :
  (forall a, f a = Ok (g a)) -> map_res f l = Ok (map g l).
Proof.
  intros Hf; induction l as [|a t IH]; simpl; [reflexivity|].
  rewrite Hf; cbn [bind]; rewrite IH; reflexivity.
Qed.

(** A division by a non-zero number never raises. *)
Lemma sub_div_ok col mu sigma :
  ~ sigma == 0 ->
  sub_div col mu sigma = Ok (map (option_map (fun x => (x - mu) / sigma)) col).
Proof.
  intros Hs; unfold sub_div; apply map_res_ok; intros [x|]; [|reflexivity].
  unfold py_div; destruct (Qeq_bool sigma 0) eqn:E.
  - apply Qeq_bool_iff in E; contradiction.
  - reflexivity.
Qed.






Lemma select_columns df cs cols :
  map_res (fun c => v <- get_col df c ;; Ok (c, v)) cs = Ok cols ->
  map fst cols = cs /\ (forall c, In c cs -> lookup c cols = lookup c df).
Proof.
  revert cols; induction cs as [|c0 t IH]; simpl; intros cols H.
  - injection H as <-; split; [reflexivity|intros c []].
  - destruct (get_col df c0) as [v|e] eqn:E; simpl in H; [|discriminate].
    destruct (map_res _ t) as [rest|e] eqn:E2; simpl in H; [|discriminate].
    injection H as <-; apply get_col_ok in E.
    destruct (IH rest eq_refl) as [H1 H2]; split; [simpl; f_equal; exact H1|].
    intros c Hc; simpl; destruct (String.eqb_spec c0 c) as [<-|Hne]; [congruence|].
    destruct Hc as [->|Hc]; [contradiction|auto].
Qed.






(** ** C8 *)

(** Claim C8: at inference time, a feature whose persisted standard
    deviation is 0 gets the scaled value 0 without any division; otherwise
    the value is (x - mean) / std with the persisted statistics; in both
    predictors the scaling step never divides by zero. *)
Theorem zero_std_guard profile df stem st :
  lookup stem profile = Some (Some st) ->
  (std st == 0 ->
     scale_stem_zip profile df stem
     = Ok (set_col df (scaled_name stem) (repeat (Some 0) (nrows df)))
     /\ scale_stem_lp profile df stem
     = Ok (set_col df (scaled_name stem) (repeat (Some 0) (nrows df)))) /\
  (~ std st == 0 -> forall col, lookup stem df = Some col ->
     scale_stem_zip profile df stem
     = Ok (set_col df (scaled_name stem)
                   (map (option_map (fun x => (x - mean st) / std st)) col))
     /\ scale_stem_lp profile df stem
     = Ok (set_col df (scaled_name stem)
                   (map (option_map (fun x => (x - mean st) / std st)) col))) /\
  scale_stem_zip profile df stem <> Raise ZeroDivisionError /\
  scale_stem_lp profile df stem <> Raise ZeroDivisionError.
Proof.
  intros Hp; unfold scale_stem_zip, scale_stem_lp; rewrite Hp.
  destruct (Qeq_bool (std st) 0) eqn:E.
  - apply Qeq_bool_iff in E; simpl.
    split; [auto|split; [intros Hn; contradiction|split; discriminate]].
  - apply Qeq_bool_neq in E; simpl.
    unfold get_col.
    split; [intros Hz; contradiction|].
    split.
    + intros _ col Hc; rewrite Hc; simpl; rewrite sub_div_ok by exact E; simpl; auto.
    + destruct (lookup stem df) as [col|]; simpl; [|split; discriminate].
      rewrite sub_div_ok by exact E; simpl; split; discriminate.
Qed.

Lemma zero_std_guard_witness :
  lookup "sot_MA5" ex_profile = Some (Some {| mean := 1; std := 1 |}) /\
  scale_stem_zip ex_profile ex_table "sot_MA5"
  = Ok (set_col ex_table "sot_MA5_scaled" [Some ((2 - 1) / 1)]).
Proof.
  split; [reflexivity|].
  destruct (zero_std_guard ex_profile ex_table "sot_MA5" {| mean := 1; std := 1 |} eq_refl)
    as [_ [H _]].
  exact (proj1 (H ltac:(vm_compute; discriminate) [Some 2] eq_refl)).
Defined.



End LiveFacts.

(* ------------------------------------------------------------------ *)
Module ScalingFacts.
Import Column Scaling.

Lemma combine_nth_error {A B} (l1 : list A) (l2 : list B) i a b :
  nth_error l1 i = Some a -> nth_error l2 i = Some b ->
  nth_error (combine l1 l2) i = Some (a, b).
Proof.
  revert l2 i; induction l1 as [|x t IH]; intros [|y l2] [|i]; simpl;
    try discriminate; auto; congruence.
Qed.

Lemma nth_error_some_obs c i x : nth_error c i = Some (Some x) -> In x (obs c).
Proof.
  revert i; induction c as [|[q|] t IH]; intros [|i] H; simpl in *; try discriminate.
  - injection H as ->; left; reflexivity.
  - right; eapply IH; eauto.
  - eapply IH; eauto.
Qed.

Lemma fillna_mean_length c : length (fillna_mean c) = length c.
Proof. unfold fillna_mean; destruct (series_mean c); [apply length_map|reflexivity]. Qed.

Lemma fillna_mean_some c i x :
  nth_error c i = Some (Some x) -> nth_error (fillna_mean c) i = Some (Some x).
Proof.
  intros H; unfold fillna_mean; destruct (series_mean c); [|exact H].
  rewrite nth_error_map, H; reflexivity.
Qed.

Lemma reapply_nan_none c s i :
  nth_error c i = Some None -> length s = length c ->
  nth_error (reapply_nan c s) i = Some None.
Proof.
  intros H Hl; unfold reapply_nan; rewrite nth_error_map.
  assert (Hi : (i < length s)%nat) by (rewrite Hl; apply nth_error_Some; congruence).
  apply nth_error_Some in Hi.
  destruct (nth_error s i) as [v|] eqn:Es; [|contradiction].
  rewrite (combine_nth_error _ _ _ _ _ H Es); reflexivity.
Qed.

Lemma reapply_nan_some c s i x v :
  nth_error c i = Some (Some x) -> nth_error s i = Some v ->
  nth_error (reapply_nan c s) i = Some v.
Proof.
  intros H Hs; unfold reapply_nan; rewrite nth_error_map.
  rewrite (combine_nth_error _ _ _ _ _ H Hs); reflexivity.
Qed.

Lemma standardize_column_stats sqrt c :
  snd (standardize_column sqrt c) = scaler_fit sqrt (fillna_mean c).
Proof. unfold standardize_column; cbv zeta; destruct (scaler_fit sqrt (fillna_mean c)); reflexivity. Qed.

Lemma standardize_column_none sqrt c i :
  nth_error c i = Some None -> nth_error (fst (standardize_column sqrt c)) i = Some None.
Proof.
  intros H; unfold standardize_column; cbv zeta.
  destruct (scaler_fit sqrt (fillna_mean c)); simpl; [|exact H].
  apply reapply_nan_none; [exact H|].
  rewrite length_map; apply fillna_mean_length.
Qed.

Lemma standardize_column_some sqrt c i x :
  nth_error c i = Some (Some x) ->
  exists st, scaler_fit sqrt (fillna_mean c) = Some st /\
    nth_error (fst (standardize_column sqrt c)) i = Some (Some ((x - mean st) / std st)).
Proof.
  intros H; pose proof (fillna_mean_some c i x H) as Hf.
  assert (Hne : obs (fillna_mean c) <> []).
  { intros E; pose proof (nth_error_some_obs _ _ _ Hf) as Hin; rewrite E in Hin; destruct Hin. }
  destruct (scaler_fit sqrt (fillna_mean c)) as [st|] eqn:Est.
  - exists st; split; [reflexivity|].
    unfold standardize_column; cbv zeta; rewrite Est; simpl.
    apply reapply_nan_some with x; [exact H|].
    rewrite nth_error_map, Hf; reflexivity.
  - exfalso; unfold scaler_fit in Est; destruct (obs (fillna_mean c)); [|discriminate].
    apply Hne; reflexivity.
Qed.

Lemma sq_nonneg (x : Q) : 0 <= x * x.
Proof. destruct x as [a b]; unfold Qle, Qmult; simpl; nia. Qed.

Lemma qsum_nonneg l : (forall x, In x l -> 0 <= x) -> 0 <= qsum l.
Proof.
  induction l as [|a t IH]; simpl; intros H; [apply Qle_refl|].
  apply (Qplus_le_compat 0 a 0 (qsum t)); [apply H; left; reflexivity|].
  apply IH; intros x Hx; apply H; right; exact Hx.
Qed.

Lemma inject_nat_nonneg (n : nat) : 0 <= inject_Z (Z.of_nat n).
Proof. unfold Qle; simpl; lia. Qed.

Lemma pop_var_nonneg l : 0 <= pop_var l.
Proof.
  unfold pop_var, Qdiv; apply Qmult_le_0_compat.
  - apply qsum_nonneg; intros x Hx; apply in_map_iff in Hx.
    destruct Hx as [y [<- _]]; apply sq_nonneg.
  - apply Qinv_le_0_compat, inject_nat_nonneg.
Qed.

(** With [sqrt] positive on positive numbers, the persisted std is never 0. *)
Lemma scaler_fit_std_nonzero sqrt c st :
  (forall v, 0 < v -> 0 < sqrt v) ->
  scaler_fit sqrt c = Some st -> ~ std st == 0.
Proof.
  intros Hs; unfold scaler_fit; destruct (obs c) as [|q l]; [discriminate|].
  intros H; injection H as <-; simpl.
  destruct (Qeq_bool (pop_var (q :: l)) 0) eqn:E; [discriminate|].
  apply Qeq_bool_neq in E.
  assert (Hp : 0 < pop_var (q :: l)).
  { destruct (proj1 (Qle_lteq _ _) (pop_var_nonneg (q :: l))) as [Hl|Heq];
      [exact Hl|exfalso; apply E; symmetry; exact Heq]. }
  intros Hz; pose proof (Hs _ Hp) as Hq; rewrite Hz in Hq; discriminate.
Qed.

Lemma obs_fillna_sum m c :
  qsum (obs (map (fillna m) c)) == qsum (obs c) + inject_Z (Z.of_nat (count_none c)) * m.
Proof.
  assert (Hc : forall a l, qsum (a :: l) = a + qsum l) by reflexivity.
  induction c as [|[q|] t IH].
  - reflexivity.
  - change (obs (map (fillna m) (Some q :: t))) with (q :: obs (map (fillna m) t)).
    change (obs (Some q :: t)) with (q :: obs t).
    change (count_none (Some q :: t)) with (count_none t).
    rewrite !Hc, IH; ring.
  - change (obs (map (fillna m) (None :: t))) with (m :: obs (map (fillna m) t)).
    change (obs (None :: t)) with (obs t).
    change (count_none (None :: t)) with (S (count_none t)).
    rewrite Hc, IH, Nat2Z.inj_succ, <- Z.add_1_r, inject_Z_plus; ring.
Qed.

Lemma obs_fillna_length m c :
  length (obs (map (fillna m) c)) = (length (obs c) + count_none c)%nat.
Proof. induction c as [|[q|] t IH]; simpl; rewrite ?IH; lia. Qed.

(** Filling NaN with the mean leaves the mean unchanged. *)
Lemma fillna_mean_mean c :
  obs c <> [] -> qmean (obs (fillna_mean c)) == qmean (obs c).
Proof.
  intros Hne; unfold fillna_mean, series_mean.
  destruct (obs c) as [|q l] eqn:Eo; [contradiction|].
  rewrite <- Eo.
  unfold qmean at 1; rewrite obs_fillna_sum, obs_fillna_length.
  unfold qmean; set (S := qsum (obs c)).
  set (k := length (obs c)); set (n := count_none c).
  assert (Hk : (0 < k)%nat) by (unfold k; rewrite Eo; simpl; lia).
  rewrite Nat2Z.inj_add, inject_Z_plus.
  assert (Hk' : ~ inject_Z (Z.of_nat k) == 0) by (unfold Qeq; simpl; lia).
  assert (Hkn : ~ inject_Z (Z.of_nat k) + inject_Z (Z.of_nat n) == 0).
  { rewrite <- inject_Z_plus; unfold Qeq; simpl; lia. }
  field; split; assumption.
Qed.

Lemma scaler_fit_mean sqrt c st :
  scaler_fit sqrt (fillna_mean c) = Some st -> mean st == qmean (obs c).
Proof.
  intros H.
  assert (Hne : obs c <> []).
  { intros E; unfold fillna_mean, series_mean in H; rewrite E in H.
    unfold scaler_fit in H; rewrite E in H; discriminate. }
  unfold scaler_fit in H; destruct (obs (fillna_mean c)) as [|q l] eqn:Ef; [discriminate|].
  injection H as <-; simpl; rewrite <- Ef; apply fillna_mean_mean; exact Hne.
Qed.

Lemma standardize_features_rows sqrt df r :
  In r (fst (standardize_features sqrt df)) ->
  exists i, nth_error df i = Some (raw r)
    /\ nth_error (fst (standardize_column sqrt (map sot_MA5 df))) i = Some (sot_MA5_scaled r)
    /\ nth_error (fst (standardize_column sqrt (map sot_conceded_MA5 df))) i
       = Some (sot_conceded_MA5_scaled r).
Proof.
  unfold standardize_features.
  destruct (standardize_column sqrt (map sot_MA5 df)) as [s1 st1] eqn:E1.
  destruct (standardize_column sqrt (map sot_conceded_MA5 df)) as [s2 st2] eqn:E2.
  simpl; intros H; apply in_map_iff in H; destruct H as [[t [a b]] [<- Hin]].
  apply In_nth_error in Hin; destruct Hin as [i Hi].
  apply PFactorFacts.nth_error_combine in Hi; destruct Hi as [Ht Hab].
  apply PFactorFacts.nth_error_combine in Hab; destruct Hab as [Ha Hb].
  exists i; simpl; auto.
Qed.

Lemma standardize_features_profile sqrt df :
  snd (standardize_features sqrt df)
  = [("sot_MA5"%string, scaler_fit sqrt (fillna_mean (map sot_MA5 df)));
     ("sot_conceded_MA5"%string, scaler_fit sqrt (fillna_mean (map sot_conceded_MA5 df)))].
Proof.
  rewrite <- !standardize_column_stats; unfold standardize_features.
  destruct (standardize_column sqrt (map sot_MA5 df)) as [s1 st1].
  destruct (standardize_column sqrt (map sot_conceded_MA5 df)) as [s2 st2].
  reflexivity.
Qed.

Lemma prepare_features_rows rows X y :
  In (X, y) (prepare_features rows) ->
  exists r, In r rows /\ sot_MA5_scaled r <> None /\ sot_conceded_MA5_scaled r <> None.
Proof.
  unfold prepare_features; intros H; apply in_flat_map in H.
  destruct H as [r [Hr Hin]]; exists r; split; [exact Hr|].
  unfold prepare_row in Hin.
  destruct (sot_conceded_MA5_scaled r), (sot_MA5_scaled r), (summary_min (raw r)),
    (is_forward (raw r)), (is_defender (raw r)), (sot (raw r)); try destruct Hin;
    split; discriminate.
Qed.

Lemma scaled_defined_raw_defined sqrt (get : TrainRow -> option Q) df i v :
  nth_error df i <> None ->
  nth_error (fst (standardize_column sqrt (map get df))) i = Some v -> v <> None ->
  exists t, nth_error df i = Some t /\ get t <> None.
Proof.
  intros Hi Hs Hv.
  destruct (nth_error df i) as [t|] eqn:Et; [|contradiction].
  exists t; split; [reflexivity|]; intros Hg.
  assert (Hn : nth_error (map get df) i = Some None) by (rewrite nth_error_map, Et; simpl; rewrite Hg; reflexivity).
  rewrite (standardize_column_none sqrt _ _ Hn) in Hs; congruence.
Qed.


(** ** C3 *)


(** ** C4 *)

(** Claim C4: for every training row whose raw factor value x is defined,
    the persisted ScalingProfile entry of that factor has a non-zero std,
    the standardized value used to fit the model is (x - mean) / std with
    that entry, and the live scaling step applies the same affine map with
    the same persisted entry to the live raw column. *)
Theorem scaling_profile_round_trip sqrt df r :
  (forall v, 0 < v -> 0 < sqrt v) ->
  In r (fst (standardize_features sqrt df)) ->
  (forall x, sot_MA5 (raw r) = Some x ->
     exists st, Live.lookup "sot_MA5" (snd (standardize_features sqrt df)) = Some (Some st)
       /\ ~ std st == 0
       /\ sot_MA5_scaled r = Some ((x - mean st) / std st)
       /\ forall live col, Live.lookup "sot_MA5" live = Some col ->
            Live.scale_stem_zip (snd (standardize_features sqrt df)) live "sot_MA5"
            = Live.Ok (Live.set_col live "sot_MA5_scaled"
                        (map (option_map (fun v => (v - mean st) / std st)) col))) /\
  (forall x, sot_conceded_MA5 (raw r) = Some x ->
     exists st, Live.lookup "sot_conceded_MA5" (snd (standardize_features sqrt df))
                = Some (Some st)
       /\ ~ std st == 0
       /\ sot_conceded_MA5_scaled r = Some ((x - mean st) / std st)
       /\ forall live col, Live.lookup "sot_conceded_MA5" live = Some col ->
            Live.scale_stem_zip (snd (standardize_features sqrt df)) live "sot_conceded_MA5"
            = Live.Ok (Live.set_col live "sot_conceded_MA5_scaled"
                        (map (option_map (fun v => (v - mean st) / std st)) col))).
Proof.
  intros Hs Hr.
  destruct (standardize_features_rows _ _ _ Hr) as [i [Hi [H1 H2]]].
  rewrite standardize_features_profile.
  split; intros x Hx.
  - assert (Hc : nth_error (map sot_MA5 df) i = Some (Some x))
      by (rewrite nth_error_map, Hi; simpl; rewrite Hx; reflexivity).
    destruct (standardize_column_some sqrt _ _ _ Hc) as [st [Hst Hv]].
    pose proof (scaler_fit_std_nonzero _ _ _ Hs Hst) as Hnz.
    exists st; split; [simpl; rewrite Hst; reflexivity|].
    split; [exact Hnz|]; split; [congruence|].
    intros live col Hcol.
    unfold Live.scale_stem_zip; simpl; rewrite Hst.
    destruct (Qeq_bool (std st) 0) eqn:E; [apply Qeq_bool_iff in E; contradiction|].
    simpl; unfold Live.get_col; rewrite Hcol; simpl.
    rewrite LiveFacts.sub_div_ok by exact Hnz; reflexivity.
  - assert (Hc : nth_error (map sot_conceded_MA5 df) i = Some (Some x))
      by (rewrite nth_error_map, Hi; simpl; rewrite Hx; reflexivity).
    destruct (standardize_column_some sqrt _ _ _ Hc) as [st [Hst Hv]].
    pose proof (scaler_fit_std_nonzero _ _ _ Hs Hst) as Hnz.
    exists st; split; [simpl; rewrite Hst; reflexivity|].
    split; [exact Hnz|]; split; [congruence|].
    intros live col Hcol.
    unfold Live.scale_stem_zip; simpl; rewrite Hst.
    destruct (Qeq_bool (std st) 0) eqn:E; [apply Qeq_bool_iff in E; contradiction|].
    simpl; unfold Live.get_col; rewrite Hcol; simpl.
    rewrite LiveFacts.sub_div_ok by exact Hnz; reflexivity.
Qed.

Lemma newton_pos n v x : 0 < v -> 0 < x -> 0 < newton n v x.
Proof.
  revert x; induction n as [|n IH]; intros x Hv Hx; simpl; [exact Hx|].
  apply IH; [exact Hv|].
  unfold newton_step; rewrite Qred_correct.
  assert (Hvx : 0 < v / x) by (apply Qlt_shift_div_l; [exact Hx|rewrite Qmult_0_l; exact Hv]).
  apply Qlt_shift_div_l; [reflexivity|].
  rewrite Qmult_0_l.
  apply (Qplus_lt_le_compat 0 x 0 (v / x)) in Hx; [exact Hx|apply Qlt_le_weak; exact Hvx].
Qed.

Lemma qsqrt_pos v : 0 < v -> 0 < qsqrt v.
Proof.
  intros Hv; unfold qsqrt; apply newton_pos; [exact Hv|].
  apply Qlt_shift_div_l; [reflexivity|].
  rewrite Qmult_0_l.
  apply (Qplus_lt_le_compat 0 v 0 1) in Hv; [exact Hv|discriminate].
Qed.

Lemma scaling_profile_round_trip_witness :
  In ex_scaled_row (fst (standardize_features qsqrt ex_train)) /\
  exists st, Live.lookup "sot_MA5" (snd (standardize_features qsqrt ex_train)) = Some (Some st)
    /\ sot_MA5_scaled ex_scaled_row = Some ((0 - mean st) / std st).
Proof.
  assert (H : In ex_scaled_row (fst (standardize_features qsqrt ex_train)))
    by (vm_compute; left; reflexivity).
  split; [exact H|].
  destruct (proj1 (scaling_profile_round_trip qsqrt ex_train ex_scaled_row qsqrt_pos H) 0
              ltac:(vm_compute; reflexivity)) as [st [H1 [_ [H2 _]]]].
  exists st; split; assumption.
Defined.

End ScalingFacts.

(* ------------------------------------------------------------------ *)
Module ZIPFacts.
Import ZIP.
Local Open Scope R_scope.

Lemma truncate_to_firstn n (a : list R) : truncate_to n a = firstn n a.
Proof.
  unfold truncate_to; destruct (Nat.ltb_spec n (length a)) as [_|Hle]; [reflexivity|].
  symmetry; apply firstn_all2; exact Hle.
Qed.

(** ** C6 *)

(** Claim C6 (as the code does it): when the scored rows are no more than
    max(endog) + 1, the P(SOT >= 1) reported for row i is 1 minus the
    probability that the FIRST scored row has i shots on target: the
    n x (max(endog)+1) probability matrix is flattened and cut to its first
    n entries. *)
Theorem zip_reported_p1_reads_first_row m r0 rest i :
  (length (r0 :: rest) <= S (max_endog m))%nat ->
  (i < length (r0 :: rest))%nat ->
  exists p, p_sot_1_plus m (r0 :: rest) = Some p /\ nth_error p i = Some (1 - zip_pmf m r0 i).
Proof.
  intros Hn Hi; set (n := length (r0 :: rest)) in *.
  set (A := map (zip_pmf m r0) (seq 0 (S (max_endog m)))).
  assert (HA : length A = S (max_endog m)) by (unfold A; rewrite length_map, length_seq; reflexivity).
  assert (Hr : ravel (predict_prob m (r0 :: rest)) = A ++ ravel (predict_prob m rest))
    by reflexivity.
  assert (Hp : truncate_to n (ravel (predict_prob m (r0 :: rest))) = firstn n A).
  { rewrite truncate_to_firstn, Hr, firstn_app.
    replace (n - length A)%nat with O by lia; rewrite app_nil_r; reflexivity. }
  unfold p_sot_1_plus; fold n; rewrite Hp.
  rewrite length_firstn, Nat.min_l by lia; rewrite Nat.eqb_refl.
  eexists; split; [reflexivity|].
  rewrite nth_error_map, nth_error_firstn.
  destruct (Nat.ltb_spec i n) as [_|]; [|lia].
  unfold A; rewrite nth_error_map, nth_error_seq.
  destruct (Nat.ltb_spec i (S (max_endog m))) as [_|]; [reflexivity|lia].
Qed.

Lemma zip_reported_p1_reads_first_row_witness :
  exists p, p_sot_1_plus ex_model ex_rows = Some p
  /\ nth_error p 1 = Some (1 - zip_pmf ex_model ex_row 1).
Proof.
  exact (zip_reported_p1_reads_first_row ex_model ex_row [ex_row] 1
           ltac:(simpl; lia) ltac:(simpl; lia)).
Defined.

Lemma ex_lambda : lambda ex_model ex_row = 1.
Proof.
  unfold lambda, dot; simpl.
  rewrite Rmult_0_r, Rplus_0_r; apply exp_0.
Qed.

Lemma ex_pi : pi ex_model ex_row = / 2.
Proof.
  unfold pi, dot; simpl.
  rewrite Rmult_0_r, Rplus_0_r, Ropp_0, exp_0; reflexivity.
Qed.

(** Two identical rows (pi = 1/2, lambda = 1) scored by a model trained on
    targets up to 2: the P(SOT >= 1) reported for the second row is
    1 - P(Y = 1) of the first row, not 1 - P(Y = 0); the two differ by 1/2. *)
Lemma zip_p1_divergence :
  p_sot_1_plus ex_model ex_rows
  = Some [1 - zip_pmf ex_model ex_row 0; 1 - zip_pmf ex_model ex_row 1] /\
  (1 - zip_pmf ex_model ex_row 1) - (1 - zip_prob_zero ex_model ex_row) = / 2.
Proof.
  split; [reflexivity|].
  unfold zip_pmf, zip_prob_zero; rewrite ex_lambda, ex_pi; simpl.
  field.
Qed.

End ZIPFacts.

(* ------------------------------------------------------------------ *)
Module PositionFacts.
Import Position.
Local Open Scope string_scope.

(** ** C7 *)

(** Claim C7 (as the code does it): a row whose extracted position code is
    missing or not a key of POSITION_MAPPING is not dropped: it gets the
    group 'Midfielder' and stays in the live pipeline (clean_and_enrich_data)
    and in the training pipeline (process_position_data). *)
Theorem unmapped_position_kept_as_midfielder codes c rows r :
  map_position c = None ->
  In c codes -> In r rows -> position r = c ->
  position_group_of c = "Midfielder" /\
  In (c, "Midfielder") (clean_and_enrich_data codes) /\
  In (r, "Midfielder") (process_position_data rows).
Proof.
  intros Hm Hc Hr Hp.
  assert (Hg : position_group_of c = "Midfielder") by (unfold position_group_of; rewrite Hm; reflexivity).
  split; [exact Hg|split].
  - unfold clean_and_enrich_data; apply filter_In; split; [|reflexivity].
    rewrite <- Hg; apply in_map_iff; exists c; split; [reflexivity|exact Hc].
  - unfold process_position_data; apply filter_In; split; [|reflexivity].
    rewrite <- Hg, <- Hp; apply in_map_iff; exists r; split; [reflexivity|exact Hr].
Qed.

Lemma unmapped_position_kept_as_midfielder_witness :
  In (Some "XX", "Midfielder") (clean_and_enrich_data ex_codes) /\
  In ({| player_id := 1; position := Some "XX"; sot := Some 0 |}, "Midfielder")
     (process_position_data ex_pos_rows).
Proof.
  exact (proj2 (unmapped_position_kept_as_midfielder ex_codes (Some "XX") ex_pos_rows
           {| player_id := 1; position := Some "XX"; sot := Some 0 |}
           eq_refl ltac:(simpl; tauto) ltac:(simpl; tauto) eq_refl)).
Defined.

(** The unknown code 'XX' and a missing code both reach the rest of the
    live pipeline as Midfielders, while the Goalkeeper row is removed. *)
Lemma unmapped_position_counterexample :
  clean_and_enrich_data ex_codes
  = [(Some "FW", "Forward"); (Some "XX", "Midfielder"); (None, "Midfielder")] /\
  process_position_data ex_pos_rows
  = [({| player_id := 1; position := Some "XX"; sot := Some 0 |}, "Midfielder")].
Proof. split; vm_compute; reflexivity. Qed.

End PositionFacts.

(* ------------------------------------------------------------------ *)
Module FetchFacts.
Import Fetch.
Local Open Scope nat_scope.

Lemma idents_app l1 l2 : idents (l1 ++ l2) = idents l1 ++ idents l2.
Proof. unfold idents; apply flat_map_app. Qed.

Lemma dedup_page_spec seen data s' a n :
  dedup_page seen data = (s', a, n) ->
  (forall i, In i s' <-> In i seen \/ In i (idents a)) /\
  NoDup (idents a) /\
  (forall i, In i (idents a) -> ~ In i seen) /\
  (forall r, In r a -> In r data).
Proof.
  revert seen s' a n; induction data as [|r t IH]; intros seen s' a n H; simpl in H.
  - injection H as <- <- <-; simpl.
    split; [tauto|split; [constructor|split; [tauto|tauto]]].
  - destruct (id r) as [i|] eqn:Ei.
    + destruct (existsb (Z.eqb i) seen) eqn:Es.
      * destruct (IH _ _ _ _ H) as [H1 [H2 [H3 H4]]].
        split; [exact H1|split; [exact H2|split; [exact H3|]]].
        intros r' Hr'; right; auto.
      * destruct (dedup_page (i :: seen) t) as [[s0 a0] n0] eqn:Ed.
        injection H as <- <- <-.
        destruct (IH _ _ _ _ Ed) as [H1 [H2 [H3 H4]]].
        assert (Hni : ~ In i seen).
        { intros Hin; assert (existsb (Z.eqb i) seen = true)
            by (apply existsb_exists; exists i; split; [exact Hin|apply Z.eqb_refl]).
          congruence. }
        assert (Hid : idents (r :: a0) = i :: idents a0) by (unfold idents; simpl; rewrite Ei; reflexivity).
        rewrite Hid.
        split; [|split; [|split]].
        -- intros j; rewrite H1; simpl; tauto.
        -- constructor; [|exact H2].
           intros Hin; apply (H3 i Hin); left; reflexivity.
        -- intros j [<-|Hj]; [exact Hni|].
           intros Hs; apply (H3 j Hj); right; exact Hs.
        -- intros r' [<-|Hr']; [left; reflexivity|right; auto].
    + destruct (dedup_page seen t) as [[s0 a0] n0] eqn:Ed.
      injection H as <- <- <-.
      destruct (IH _ _ _ _ Ed) as [H1 [H2 [H3 H4]]].
      assert (Hid : idents (r :: a0) = idents a0) by (unfold idents; simpl; rewrite Ei; reflexivity).
      rewrite Hid.
      split; [exact H1|split; [exact H2|split; [exact H3|]]].
      intros r' [<-|Hr']; [left; reflexivity|right; auto].
Qed.

Lemma fetch_loop_spec fuel page k seen acc :
  (forall i, In i seen <-> In i (idents acc)) -> NoDup (idents acc) ->
  (forall r, In r acc -> exists k' d, page (k' * limit) = Some d /\ In r d) ->
  NoDup (idents (fetch_loop fuel page (k * limit) seen acc)) /\
  (forall r, In r (fetch_loop fuel page (k * limit) seen acc) ->
     exists k' d, page (k' * limit) = Some d /\ In r d).
Proof.
  revert k seen acc; induction fuel as [|f IH]; intros k seen acc Hs Hn Hr; simpl;
    [split; assumption|].
  destruct (page (k * limit)) as [[|d0 dt]|] eqn:Ep; try (split; assumption).
  destruct (dedup_page seen (d0 :: dt)) as [[s' a] n] eqn:Ed.
  destruct (dedup_page_spec _ _ _ _ _ Ed) as [H1 [H2 [H3 H4]]].
  assert (Hs' : forall i, In i s' <-> In i (idents (acc ++ a))).
  { intros i; rewrite H1, idents_app, in_app_iff, Hs; tauto. }
  assert (Hn' : NoDup (idents (acc ++ a))).
  { rewrite idents_app; apply NoDup_app; [exact Hn|exact H2|].
    intros i Hi Ha; apply (H3 i Ha); apply Hs; exact Hi. }
  assert (Hr' : forall r, In r (acc ++ a) -> exists k' d, page (k' * limit) = Some d /\ In r d).
  { intros r Hin; apply in_app_iff in Hin; destruct Hin as [Hin|Hin]; [auto|].
    exists k, (d0 :: dt); split; [exact Ep|auto]. }
  destruct (Nat.ltb (length (d0 :: dt)) limit || Nat.eqb n 0); [split; assumption|].
  replace (k * limit + limit) with (S k * limit) by lia.
  apply IH; auto.
Qed.

Lemma idents_snoc l r :
  idents (l ++ [r]) = idents l ++ match id r with Some i => [i] | None => [] end.
Proof. rewrite idents_app; unfold idents at 2; simpl; rewrite app_nil_r; reflexivity. Qed.

Lemma existsb_Zeqb_iff i l : existsb (Z.eqb i) l = true <-> In i l.
Proof.
  rewrite existsb_exists; split.
  - intros [j [Hj Heq]]; apply Z.eqb_eq in Heq; subst; exact Hj.
  - intros Hin; exists i; split; [exact Hin|apply Z.eqb_refl].
Qed.

(** One page: the loop over the records appends to [all_data] what the
    specification's row-by-row extension appends, counts it, and keeps
    [seen_ids] equal (as a set) to the identifiers of the table. *)
Lemma dedup_page_extend data : forall seen acc s' a n,
  (forall i, In i seen <-> In i (idents acc)) ->
  dedup_page seen data = (s', a, n) ->
  acc ++ a = extend_unique acc data /\ n = length a /\
  (forall i, In i s' <-> In i (idents (acc ++ a))).
Proof.
  induction data as [|r t IH]; intros seen acc s' a n Hs H; cbn [dedup_page] in H.
  - injection H as <- <- <-; rewrite app_nil_r; split; [reflexivity|split; [reflexivity|exact Hs]].
  - unfold extend_unique; cbn [fold_left]; fold (extend_unique (add_if_new acc r) t).
    unfold add_if_new.
    destruct (id r) as [i|] eqn:Ei.
    + destruct (existsb (Z.eqb i) seen) eqn:Es.
      * assert (Ea : existsb (Z.eqb i) (idents acc) = true).
        { apply existsb_Zeqb_iff, Hs, existsb_Zeqb_iff; exact Es. }
        rewrite Ea; exact (IH seen acc s' a n Hs H).
      * assert (Ea : existsb (Z.eqb i) (idents acc) = false).
        { destruct (existsb (Z.eqb i) (idents acc)) eqn:Ea; [|reflexivity].
          apply existsb_Zeqb_iff, Hs, existsb_Zeqb_iff in Ea; congruence. }
        rewrite Ea.
        destruct (dedup_page (i :: seen) t) as [[s0 a0] n0] eqn:Ed.
        injection H as <- <- <-.
        assert (Hs' : forall j, In j (i :: seen) <-> In j (idents (acc ++ [r]))).
        { intros j; rewrite idents_snoc, Ei, in_app_iff, <- Hs; simpl; tauto. }
        destruct (IH (i :: seen) (acc ++ [r]) s0 a0 n0 Hs' Ed) as [H1 [H2 H3]].
        rewrite <- app_assoc in H1, H3; cbn [app] in H1, H3.
        split; [exact H1|split; [cbn [length]; rewrite H2; reflexivity|exact H3]].
    + destruct (dedup_page seen t) as [[s0 a0] n0] eqn:Ed.
      injection H as <- <- <-.
      assert (Hs' : forall j, In j seen <-> In j (idents (acc ++ [r]))).
      { intros j; rewrite idents_snoc, Ei, app_nil_r; apply Hs. }
      destruct (IH seen (acc ++ [r]) s0 a0 n0 Hs' Ed) as [H1 [H2 H3]].
      rewrite <- app_assoc in H1, H3; cbn [app] in H1, H3.
      split; [exact H1|split; [cbn [length]; rewrite H2; reflexivity|exact H3]].
Qed.

Lemma eqb_add_same m k : Nat.eqb (m + k) m = Nat.eqb k 0.
Proof.
  destruct k as [|k]; [rewrite Nat.add_0_r, Nat.eqb_refl; reflexivity|].
  apply Nat.eqb_neq; lia.
Qed.

Lemma fetch_loop_spec_eq fuel : forall page offset seen acc,
  (forall i, In i seen <-> In i (idents acc)) ->
  fetch_loop fuel page offset seen acc = fetch_spec fuel page offset acc.
Proof.
  induction fuel as [|f IH]; intros page offset seen acc Hs; [reflexivity|].
  cbn [fetch_loop fetch_spec].
  destruct (page offset) as [[|d0 dt]|]; try reflexivity.
  destruct (dedup_page seen (d0 :: dt)) as [[s' a] n] eqn:Ed.
  destruct (dedup_page_extend _ _ _ _ _ _ Hs Ed) as [H1 [H2 H3]].
  rewrite <- H1, length_app, eqb_add_same, <- H2.
  destruct (Nat.ltb (length (d0 :: dt)) limit || Nat.eqb n 0); [reflexivity|].
  apply IH; exact H3.
Qed.

(** ** C9 *)

(** Claim C9 (as the code does it): for any pager and any number of
    requests, the fetch returns what the specification's fetch returns: the
    rows of the pages it read, in order, where a row is kept when it has no
    identifier or when its identifier has not occurred before (first
    occurrence kept), stopping at a failing, empty or short page and also
    at the first page that adds no row. Hence the table holds at most one
    row per identifier, and every row it holds was returned by a page range
    starting at a multiple of the page size. *)
Theorem fetch_first_occurrence_per_id fuel page :
  fetch_with_deduplication fuel page = fetch_spec fuel page 0 [] /\
  NoDup (idents (fetch_with_deduplication fuel page)) /\
  (forall r, In r (fetch_with_deduplication fuel page) ->
     exists k d, page (k * limit) = Some d /\ In r d).
Proof.
  split; [apply fetch_loop_spec_eq; simpl; tauto|].
  unfold fetch_with_deduplication.
  change 0 with (0 * limit).
  apply fetch_loop_spec; [simpl; tauto|constructor|intros r []].
Qed.

Lemma in_idents_existsb i l : existsb (Z.eqb i) l = true -> In i l.
Proof.
  intros H; apply existsb_exists in H; destruct H as [j [Hj Heq]].
  apply Z.eqb_eq in Heq; subst; exact Hj.
Qed.

Lemma not_in_idents_existsb i l : existsb (Z.eqb i) l = false -> ~ In i l.
Proof.
  intros H Hin; assert (existsb (Z.eqb i) l = true)
    by (apply existsb_exists; exists i; split; [exact Hin|apply Z.eqb_refl]).
  congruence.
Qed.

(** The same 2001 records, fetched without overlap and with a range that
    repeats the first page: the overlapping fetch stops at the repeated page
    (it adds no new identifier) and misses record 1000 whatever the number
    of requests allowed; the plain fetch returns it. *)
Lemma fetch_overlap_counterexample :
  In 1000%Z (idents (fetch_with_deduplication 3 plain_pager)) /\
  length (fetch_with_deduplication 3 plain_pager) = 2001 /\
  forall fuel, ~ In 1000%Z (idents (fetch_with_deduplication fuel overlap_pager)).
Proof.
  split; [apply in_idents_existsb; vm_compute; reflexivity|].
  split; [vm_compute; reflexivity|].
  intros [|[|f]]; apply not_in_idents_existsb; vm_compute; reflexivity.
Qed.

End FetchFacts.

(* ------------------------------------------------------------------ *)
Module MainFacts.
Import Scaling Live Main.
Local Open Scope string_scope.

(** ** C10 *)

(** Claim C10: when the artifacts load, the raw data are not empty and no
    player qualifies for the next gameweek, main returns normally having
    written the report file with the full header of the report (the
    renamed report columns) and no row. *)
Theorem empty_gameweek_writes_header_only Raw Processed la lm re cf gl rp model profile
    raw processed live :
  la = Ok (model, profile) -> lm = Ok raw -> re raw = false ->
  cf raw = Ok processed -> gl processed = Ok live -> nrows live = 0%nat ->
  main Raw Processed la lm re cf gl rp = Ok (Some {| header := empty_cols; rows := [] |})
  /\ empty_cols = map rename_report REPORT_COLUMNS.
Proof.
  intros Hla Hlm Hre Hcf Hgl Hn; split; [|reflexivity].
  unfold main; rewrite Hla, Hlm; cbn [bind]; rewrite Hre, Hcf; cbn [bind].
  rewrite Hgl; cbn [bind]; rewrite Hn; reflexivity.
Qed.

Lemma empty_gameweek_writes_header_only_witness :
  main nat nat (Ok (ex_model, ex_profile)) (Ok 1%nat) (fun _ => false)
    (fun _ => Ok 0%nat) (fun _ => Ok []) (fun _ _ _ => Ok None)
  = Ok (Some {| header := empty_cols; rows := [] |}).
Proof.
  exact (proj1 (empty_gameweek_writes_header_only nat nat _ _ _ _ _ _ ex_model ex_profile
                  1%nat 0%nat [] eq_refl eq_refl eq_refl eq_refl eq_refl eq_refl)).
Defined.

End MainFacts.

(* ================================================================== *)
(** * Further properties of the code *)

(** ** The shape of the ZIP probability matrix *)

Module ZIPShapeFacts.
Import ZIP.
Local Open Scope R_scope.

Lemma length_predict_prob_row m r : length (map (zip_pmf m r) (seq 0 (S (max_endog m)))) = S (max_endog m).
Proof. rewrite length_map, length_seq; reflexivity. Qed.

Lemma length_ravel_predict_prob m rows :
  length (ravel (predict_prob m rows)) = (length rows * S (max_endog m))%nat.
Proof.
  unfold ravel, predict_prob; induction rows as [|r t IH]; [reflexivity|].
  cbn [map concat]; rewrite length_app, IH, length_predict_prob_row; simpl; lia.
Qed.

Lemma p_sot_1_plus_eq m rows :
  p_sot_1_plus m rows
  = Some (map (fun p => 1 - p) (firstn (length rows) (ravel (predict_prob m rows)))).
Proof.
  unfold p_sot_1_plus; cbv zeta; rewrite ZIPFacts.truncate_to_firstn.
  rewrite length_firstn, length_ravel_predict_prob.
  replace (Nat.min (length rows) (length rows * S (max_endog m))) with (length rows) by nia.
  rewrite Nat.eqb_refl; reflexivity.
Qed.

(** [nth_error] in the concatenation of blocks of one length [L]. *)
Lemma nth_error_concat_blocks {A} (ls : list (list A)) (L i : nat) :
  (0 < L)%nat -> (forall b, In b ls -> length b = L) -> (i < length ls * L)%nat ->
  exists b, nth_error ls (i / L) = Some b /\ nth_error (concat ls) i = nth_error b (i mod L).
Proof.
  intros HL; revert i; induction ls as [|b0 t IH]; intros i Hb Hi; [simpl in Hi; lia|].
  assert (H0 : length b0 = L) by (apply Hb; left; reflexivity).
  destruct (Nat.lt_ge_cases i L) as [Hlt|Hge].
  - exists b0; rewrite Nat.div_small, Nat.mod_small by exact Hlt; split; [reflexivity|].
    simpl; rewrite nth_error_app1 by lia; reflexivity.
  - destruct (IH (i - L)%nat) as [b [Hn He]].
    + intros b' Hb'; apply Hb; right; exact Hb'.
    + simpl in Hi; lia.
    + exists b.
      assert (Hd : (i / L = S ((i - L) / L))%nat).
      { replace i with (1 * L + (i - L))%nat at 1 by lia.
        rewrite Nat.div_add_l by lia; reflexivity. }
      assert (Hm : (i mod L = (i - L) mod L)%nat).
      { replace i with ((i - L) + 1 * L)%nat at 1 by lia.
        apply Nat.Div0.mod_add. }
      rewrite Hd, Hm.
      split; [exact Hn|].
      simpl; rewrite nth_error_app2 by lia; rewrite H0; exact He.
Qed.

(** run_predictions (ZIP branch): the length check on the truncated
    probability vector never fails, so [P_SOT_1_Plus] always gets one value
    per scored row; the value reported for row [i] is one minus the
    probability, under the model, that row [i / (K+1)] has exactly
    [i mod (K+1)] shots on target, where K is the largest training target. *)
Theorem zip_p1_index_formula m rows :
  (exists p, p_sot_1_plus m rows = Some p /\ length p = length rows) /\
  forall i, (i < length rows)%nat ->
  exists p r, p_sot_1_plus m rows = Some p
    /\ nth_error rows (i / S (max_endog m)) = Some r
    /\ nth_error p i = Some (1 - zip_pmf m r (i mod S (max_endog m))).
Proof.
  rewrite p_sot_1_plus_eq; split.
  - eexists; split; [reflexivity|].
    rewrite length_map, length_firstn, length_ravel_predict_prob; nia.
  - intros i Hi.
    destruct (nth_error_concat_blocks (predict_prob m rows) (S (max_endog m)) i)
      as [b [Hb He]].
    + lia.
    + intros b Hb; unfold predict_prob in Hb; apply in_map_iff in Hb.
      destruct Hb as [r [<- _]]; apply length_predict_prob_row.
    + unfold predict_prob; rewrite length_map; nia.
    + unfold predict_prob in Hb; rewrite nth_error_map in Hb.
      destruct (nth_error rows (i / S (max_endog m))) as [r|] eqn:Er; [|discriminate].
      injection Hb as <-.
      change (nth_error (concat (predict_prob m rows)) i
              = nth_error (map (zip_pmf m r) (seq 0 (S (max_endog m)))) (i mod S (max_endog m)))
        in He.
      rewrite nth_error_map, nth_error_seq in He.
      assert (Hm : (i mod S (max_endog m) < S (max_endog m))%nat) by (apply Nat.mod_upper_bound; lia).
      destruct (Nat.ltb_spec (i mod S (max_endog m)) (S (max_endog m))) as [_|]; [|lia].
      exists (map (fun p => 1 - p) (firstn (length rows) (ravel (predict_prob m rows)))), r.
      split; [reflexivity|split; [reflexivity|]].
      rewrite nth_error_map, nth_error_firstn.
      destruct (Nat.ltb_spec i (length rows)) as [_|]; [|lia].
      unfold ravel; rewrite He; reflexivity.
Qed.

Lemma zip_p1_index_formula_witness :
  (1 < length ex_rows)%nat /\
  exists p r, p_sot_1_plus ex_model ex_rows = Some p
    /\ nth_error ex_rows (1 / 3) = Some r
    /\ nth_error p 1 = Some (1 - zip_pmf ex_model r (1 mod 3)).
Proof.
  split; [simpl; lia|].
  exact (proj2 (zip_p1_index_formula ex_model ex_rows) 1%nat ltac:(simpl; lia)).
Defined.

End ZIPShapeFacts.

(** ** Poisson scoring *)

Module PoissonFacts.
Import Poisson.
Local Open Scope R_scope.

(** The partial sums of the exponential series stay below [exp]. *)
Lemma exp_partial_sum_le x n :
  0 <= x -> sum_f_R0 (fun i => / INR (fact i) * x ^ i) n <= exp x.
Proof.
  intros Hx.
  assert (Hcv : Un_cv (fun n => sum_f_R0 (fun i => / INR (fact i) * x ^ i) n) (exp x)).
  { unfold exp; destruct (exist_exp x) as [l Hl]; simpl; exact Hl. }
  apply (growing_ineq _ _); [|exact Hcv].
  intros k; cbn [sum_f_R0].
  assert (0 <= / INR (fact (S k)) * x ^ S k).
  { apply Rmult_le_pos; [left; apply Rinv_0_lt_compat, INR_fact_lt_0|].
    apply pow_le; exact Hx. }
  lra.
Qed.

Lemma e_sot_pos m x : 0 < e_sot m x.
Proof. apply exp_pos. Qed.

Lemma pmf_pos k mu : 0 < mu -> 0 < poisson_pmf k mu.
Proof.
  intros Hmu; unfold poisson_pmf, Rdiv.
  apply Rmult_lt_0_compat; [apply Rmult_lt_0_compat; [apply exp_pos|apply pow_lt; exact Hmu]|].
  apply Rinv_0_lt_compat, INR_fact_lt_0.
Qed.

(** [poisson.cdf(3, mu) < 1] for a positive mean. *)
Lemma cdf3_lt_1 mu : 0 < mu -> poisson_cdf 3 mu < 1.
Proof.
  intros Hmu.
  pose proof (exp_partial_sum_le mu 4 (Rlt_le _ _ Hmu)) as Hs.
  assert (Hs' : 1 + mu + mu * mu / 2 + mu * mu * mu / 6 + mu * mu * mu * mu / 24 <= exp mu).
  { eapply Rle_trans; [|exact Hs]; right; simpl; field. }
  assert (Hq : exp (- mu) * exp mu = 1) by (rewrite <- exp_plus, Rplus_opp_l; apply exp_0).
  assert (Hp : 0 < exp (- mu)) by apply exp_pos.
  assert (Hc : poisson_cdf 3 mu
               = exp (- mu) * (1 + mu + mu * mu / 2 + mu * mu * mu / 6)).
  { unfold poisson_cdf, poisson_pmf; simpl; field. }
  rewrite Hc.
  set (q := exp (- mu)) in *; set (E := exp mu) in *.
  assert (H4 : 0 < mu * mu * mu * mu) by (repeat apply Rmult_lt_0_compat; assumption).
  assert (Hgap : 0 < q * (mu * mu * mu * mu / 24)).
  { apply Rmult_lt_0_compat; [exact Hp|lra]. }
  assert (HqE : q * (1 + mu + mu * mu / 2 + mu * mu * mu / 6 + mu * mu * mu * mu / 24) <= q * E).
  { apply Rmult_le_compat_l; lra. }
  lra.
Qed.

(** run_predictions (Poisson branch of live_predictor_zip.py): for every
    scored row the expected count is positive, so the confidence label is
    never NaN; the probabilities are strictly ordered,
    0 < P(4+) < P(3+) < P(2+) < P(1+) < 1; P(0) + P(1+) = 1; and P(1+)
    equals the [1 - exp(-E_SOT)] that live_predictor.py reports for the
    same model and row. *)
Theorem poisson_prediction_bounds m x :
  let p := predict_row m x in
  0 < E_SOT p /\ confidence p <> None /\
  0 < P_SOT_4_Plus p /\ P_SOT_4_Plus p < P_SOT_3_Plus p /\
  P_SOT_3_Plus p < P_SOT_2_Plus p /\ P_SOT_2_Plus p < P_SOT_1_Plus p /\
  P_SOT_1_Plus p < 1 /\ P_SOT_0 p + P_SOT_1_Plus p = 1 /\
  P_SOT_1_Plus p = p_sot_1_plus_lp m x.
Proof.
  cbv zeta; unfold predict_row; cbn [E_SOT P_SOT_0 P_SOT_1_Plus P_SOT_2_Plus
    P_SOT_3_Plus P_SOT_4_Plus confidence].
  set (e := e_sot m x).
  assert (He : 0 < e) by apply e_sot_pos.
  pose proof (pmf_pos 0 e He); pose proof (pmf_pos 1 e He);
    pose proof (pmf_pos 2 e He); pose proof (pmf_pos 3 e He).
  pose proof (cdf3_lt_1 e He).
  split; [exact He|].
  split; [unfold confidence_of; destruct (Rle_dec e 0); [lra|];
          destruct (Rle_dec e (2 / 5)); [discriminate|];
          destruct (Rle_dec e (4 / 5)); discriminate|].
  cbn [poisson_cdf] in *.
  split; [lra|split; [lra|split; [lra|split; [lra|split; [lra|split; [lra|]]]]]].
  unfold p_sot_1_plus_lp, poisson_pmf; fold e.
  simpl; field.
Qed.

End PoissonFacts.

(** ** Qualification for the next gameweek *)

Module QualifyFacts.
Import Column Live.
Local Open Scope string_scope.

Lemma min_week_spec l :
  (forall n, min_week l = Some n -> In (Some n) l /\ forall w, In (Some w) l -> (n <= w)%Z) /\
  (min_week l = None -> forall w, ~ In (Some w) l).
Proof.
  induction l as [|[w0|] t [IH1 IH2]]; simpl.
  - split; [discriminate|intros _ w []].
  - destruct (min_week t) as [m|] eqn:E.
    + split; [|discriminate].
      intros n Hn; injection Hn as <-.
      destruct (IH1 m eq_refl) as [Hm Hle].
      split.
      * destruct (Z.min_spec w0 m) as [[_ ->]|[_ ->]]; [left; reflexivity|right; exact Hm].
      * intros w [Hw|Hw]; [injection Hw as ->; lia|specialize (Hle w Hw); lia].
    + split; [|discriminate].
      intros n Hn; injection Hn as <-.
      split; [left; reflexivity|].
      intros w [Hw|Hw]; [injection Hw as ->; lia|exfalso; exact (IH2 eq_refl w Hw)].
  - split.
    + intros n Hn; destruct (IH1 n Hn) as [H1 H2]; split; [right; exact H1|].
      intros w [Hw|Hw]; [discriminate|auto].
    + intros Hn w [Hw|Hw]; [discriminate|exact (IH2 Hn w Hw)].
Qed.

(** The week filter keeps a scheduled row exactly when its week is the
    smallest week of a scheduled row. *)
Lemma week_filter_iff {A} (sch : A -> bool) (wk : A -> option Z) (df : list A) r :
  In r df -> sch r = true ->
  ((match wk r, min_week (map wk (filter sch df)) with
    | Some w, Some n => Z.eqb w n
    | _, _ => false
    end = true) <->
   exists w, wk r = Some w /\
     forall r' w', In r' df -> sch r' = true -> wk r' = Some w' -> (w <= w')%Z).
Proof.
  intros Hin Hs.
  destruct (min_week_spec (map wk (filter sch df))) as [H1 H2].
  assert (Hmem : forall r' w', In r' df -> sch r' = true -> wk r' = Some w' ->
                 In (Some w') (map wk (filter sch df))).
  { intros r' w' Hr' Hs' Hw'; rewrite <- Hw'; apply in_map, filter_In; auto. }
  destruct (wk r) as [w|] eqn:Ew.
  - destruct (min_week (map wk (filter sch df))) as [n|] eqn:En.
    + destruct (H1 n eq_refl) as [Hn Hle].
      split.
      * intros Heq; apply Z.eqb_eq in Heq; subst n.
        exists w; split; [reflexivity|].
        intros r' w' Hr' Hs' Hw'; apply Hle, (Hmem r'); assumption.
      * intros [w0 [Hw0 Hmin]]; injection Hw0 as <-.
        apply in_map_iff in Hn; destruct Hn as [r'' [Hw'' Hr'']].
        apply filter_In in Hr''; destruct Hr'' as [Hr'' Hs''].
        pose proof (Hmin r'' n Hr'' Hs'' Hw'').
        pose proof (Hle w (Hmem r w Hin Hs Ew)).
        apply Z.eqb_eq; lia.
    + exfalso; exact (H2 eq_refl w (Hmem r w Hin Hs Ew)).
  - split; [discriminate|intros [w [Hw _]]; discriminate].
Qed.

Lemma orb_eqb_iff a b c :
  (String.eqb a b || String.eqb a c)%bool = true <-> a = b \/ a = c.
Proof. rewrite orb_true_iff, !String.eqb_eq; tauto. Qed.

(** get_live_gameweek_features (live_predictor_zip.py): a row is returned,
    with [summary_min] equal to its [min_MA5], exactly when it is a
    scheduled row of the table whose week is the earliest week of any
    scheduled row, its four MA5 factors are defined, its [min_MA5] is at
    least 15 and its [sot_MA5] at least 0.1, and it is a forward or a
    midfielder, or a defender whose [sot_MA5] is at least 0.3. *)
Theorem live_gameweek_features_zip_iff df r s :
  In (r, s) (get_live_gameweek_features df) <->
  In r df /\ scheduled r = true /\
  (exists w, matchweek r = Some w /\
     forall r' w', In r' df -> scheduled r' = true -> matchweek r' = Some w' -> (w <= w')%Z) /\
  has_required r = true /\
  ge_col (l_min_MA5 r) MIN_EXPECTED_MINUTES = true /\
  ge_col (l_sot_MA5 r) MIN_SOT_MA5 = true /\
  (position_group r = "Forward" \/ position_group r = "Midfielder" \/
   (position_group r = "Defender" /\ ge_col (l_sot_MA5 r) ATTACKING_DEFENDER_THRESHOLD = true)) /\
  s = l_min_MA5 r.
Proof.
  unfold get_live_gameweek_features; cbv zeta.
  remember (filter scheduled df) as sched eqn:Es.
  assert (Hsch : forall x, In x sched <-> In x df /\ scheduled x = true)
    by (intros x; rewrite Es; apply filter_In).
  destruct sched as [|h t].
  - split; [intros []|].
    intros [Hin [Hs _]]; apply (proj2 (Hsch r)); auto.
  - rewrite Es; clear Hsch h t Es.
    rewrite in_map_iff; split.
    + intros [r0 [Heq Hin]]; injection Heq as <- <-.
      rewrite in_app_iff, !filter_In in Hin.
      destruct Hin as [[[[[[[Hr Hs] Hw] Hq] Hm] Hso] H7]|[[[[[[Hr Hs] Hw] Hq] Hm] Hso] H7]];
        (split; [exact Hr|split; [exact Hs|split;
          [exact (proj1 (week_filter_iff scheduled matchweek df r0 Hr Hs) Hw)|]]]);
        repeat split; try assumption.
      * apply orb_eqb_iff in H7; tauto.
      * apply andb_true_iff in H7; destruct H7 as [H7 H8].
        apply String.eqb_eq in H7; tauto.
    + intros [Hr [Hs [Hw [Hq [Hm [Hso [Hp ->]]]]]]].
      exists r; split; [reflexivity|].
      assert (Hwk := proj2 (week_filter_iff scheduled matchweek df r Hr Hs) Hw).
      rewrite in_app_iff, !filter_In.
      destruct Hp as [Hp|[Hp|[Hp Hd]]].
      * left; repeat split; try assumption; apply orb_eqb_iff; left; exact Hp.
      * left; repeat split; try assumption; apply orb_eqb_iff; right; exact Hp.
      * right; repeat split; try assumption; apply andb_true_iff; split;
          [apply String.eqb_eq; exact Hp|exact Hd].
Qed.

Lemma live_gameweek_features_zip_iff_witness :
  In (hd (mkl "" 0 "" None None None None) ex_live, Some 80) (get_live_gameweek_features ex_live)
  /\ ~ In (nth 1 ex_live (mkl "" 0 "" None None None None), Some 70)
         (get_live_gameweek_features ex_live).
Proof.
  split.
  - apply (proj2 (live_gameweek_features_zip_iff ex_live _ _)).
    cbn [hd ex_live mkl]; split; [left; reflexivity|].
    split; [reflexivity|].
    split; [exists 7%Z; split; [reflexivity|]|].
    { intros r' w' Hr' Hs' Hw'; cbn in Hr'.
      destruct Hr' as [<-|[<-|[<-|[]]]]; cbn in Hs', Hw' |- *; try discriminate;
        injection Hw' as <-; lia. }
    repeat split; try reflexivity; left; reflexivity.
  - intros H; apply (proj1 (live_gameweek_features_zip_iff ex_live _ _)) in H.
    destruct H as [_ [_ [_ [Hq _]]]]; vm_compute in Hq; discriminate.
Defined.

(** Unfolding the early returns of get_live_gameweek_features
    (live_predictor.py): each returns what the following filters would. *)
Lemma get_live_gameweek_features_lp_eq df :
  LiveLP.get_live_gameweek_features_lp df
  = map (fun r => (r, LiveLP.lp_min_MA5 r))
      (filter (fun r => ge_col (LiveLP.lp_sot_MA5 r) MIN_SOT_MA5)
        (filter (fun r => ge_col (LiveLP.lp_min_MA5 r) MIN_EXPECTED_MINUTES)
          (filter LiveLP.has_required_lp
            (filter (fun r => match LiveLP.lp_matchweek r,
                                    min_week (map LiveLP.lp_matchweek (filter LiveLP.scheduled_lp df)) with
                              | Some w, Some n => Z.eqb w n
                              | _, _ => false
                              end) (filter LiveLP.scheduled_lp df))))).
Proof.
  unfold LiveLP.get_live_gameweek_features_lp; cbv zeta.
  destruct (filter LiveLP.scheduled_lp df) as [|h t]; [reflexivity|].
  match goal with |- context [filter LiveLP.has_required_lp ?l] =>
    destruct (filter LiveLP.has_required_lp l) as [|a1 l1]; [reflexivity|] end.
  match goal with |- context [filter (fun r => ge_col (LiveLP.lp_min_MA5 r) MIN_EXPECTED_MINUTES) ?l] =>
    destruct (filter (fun r => ge_col (LiveLP.lp_min_MA5 r) MIN_EXPECTED_MINUTES) l)
      as [|a2 l2]; [reflexivity|] end.
  match goal with |- context [filter (fun r => ge_col (LiveLP.lp_sot_MA5 r) MIN_SOT_MA5) ?l] =>
    destruct (filter (fun r => ge_col (LiveLP.lp_sot_MA5 r) MIN_SOT_MA5) l)
      as [|a3 l3]; reflexivity end.
Qed.

(** get_live_gameweek_features (live_predictor.py): a row is returned, with
    [summary_min] equal to its [min_MA5], exactly when it is a scheduled row
    of the table whose week is the earliest week of any scheduled row, its
    four MA5 factors ([sot], [min], [sot_conceded], [tackles_att_3rd]) are
    defined, its [min_MA5] is at least 15 and its [sot_MA5] at least 0.1.
    No position criterion is applied: the early returns on an empty
    intermediate table change nothing. *)
Theorem live_gameweek_features_lp_iff df r s :
  In (r, s) (LiveLP.get_live_gameweek_features_lp df) <->
  In r df /\ LiveLP.scheduled_lp r = true /\
  (exists w, LiveLP.lp_matchweek r = Some w /\
     forall r' w', In r' df -> LiveLP.scheduled_lp r' = true ->
       LiveLP.lp_matchweek r' = Some w' -> (w <= w')%Z) /\
  LiveLP.has_required_lp r = true /\
  ge_col (LiveLP.lp_min_MA5 r) MIN_EXPECTED_MINUTES = true /\
  ge_col (LiveLP.lp_sot_MA5 r) MIN_SOT_MA5 = true /\
  s = LiveLP.lp_min_MA5 r.
Proof.
  rewrite get_live_gameweek_features_lp_eq, in_map_iff; split.
  - intros [r0 [Heq Hin]]; injection Heq as <- <-.
    rewrite !filter_In in Hin.
    destruct Hin as [[[[[Hr Hs] Hw] Hq] Hm] Hso].
    repeat split; try assumption.
    apply (proj1 (week_filter_iff LiveLP.scheduled_lp LiveLP.lp_matchweek df r0 Hr Hs)); exact Hw.
  - intros [Hr [Hs [Hw [Hq [Hm [Hso ->]]]]]].
    exists r; split; [reflexivity|].
    rewrite !filter_In; repeat split; try assumption.
    apply (proj2 (week_filter_iff LiveLP.scheduled_lp LiveLP.lp_matchweek df r Hr Hs)); exact Hw.
Qed.

Lemma live_gameweek_features_lp_iff_witness :
  In (hd (LiveLP.mklp "" 0 None None None None) LiveLP.ex_live_lp, Some 60)
     (LiveLP.get_live_gameweek_features_lp LiveLP.ex_live_lp).
Proof.
  apply (proj2 (live_gameweek_features_lp_iff LiveLP.ex_live_lp _ _)).
  cbn [hd LiveLP.ex_live_lp LiveLP.mklp]; split; [left; reflexivity|].
  split; [reflexivity|].
  split; [exists 8%Z; split; [reflexivity|]|].
  { intros r' w' Hr' Hs' Hw'; cbn in Hr'.
    destruct Hr' as [<-|[<-|[<-|[]]]]; cbn in Hs', Hw' |- *; try discriminate;
      try (injection Hw' as <-; lia). }
  repeat split; reflexivity.
Defined.

End QualifyFacts.

(** ** The O-factor of live_predictor.py *)

Module LiveLPFacts.
Import Column OFactor LiveLP.
Local Open Scope string_scope.

Lemma consistent_opponent_not_own r : side_consistent r -> opponent_team r <> team_name r.
Proof.
  intros [Hh [Ha Hd]]; unfold opponent_team.
  destruct (String.eqb_spec (team_side r) "home") as [E|E].
  - rewrite (Hh E); intros H; apply Hd; symmetry; exact H.
  - rewrite (Ha E); exact Hd.
Qed.

Lemma opponent_team_with r v : opponent_team (with_sot_conceded r v) = opponent_team r.
Proof. reflexivity. Qed.

Lemma window_ignores_team l o (g : MatchRow -> option Q) :
  Forall side_consistent l ->
  map sot_conceded
    (filter (fun r' => Nat.eqb (opponent_team r') o)
       (map (fun r' => if Nat.eqb (team_name r') o then with_sot_conceded r' (g r') else r') l))
  = map sot_conceded (filter (fun r' => Nat.eqb (opponent_team r') o) l).
Proof.
  induction l as [|r' t IH]; intros Hf; [reflexivity|].
  inversion Hf as [|x y Hc Ht]; subst.
  cbn [map filter].
  destruct (Nat.eqb_spec (team_name r') o) as [Eo|Eo].
  - rewrite opponent_team_with.
    destruct (Nat.eqb_spec (opponent_team r') o) as [E|E].
    + exfalso; apply (consistent_opponent_not_own r' Hc); congruence.
    + apply IH; exact Ht.
  - destruct (Nat.eqb (opponent_team r') o); cbn [map]; rewrite IH by exact Ht; reflexivity.
Qed.

Lemma Forall_firstn {A} (P : A -> Prop) n l : Forall P l -> Forall P (firstn n l).
Proof.
  rewrite !Forall_forall; intros H x Hx; apply H.
  rewrite <- (firstn_skipn n l); apply in_app_iff; left; exact Hx.
Qed.

(** calculate_ma5_factors (live_predictor.py): in a table whose rows agree
    with their fixture (a home row belongs to the home team, an away row to
    the away team, the two teams differ), the O-factor of a row with
    opponent [o] never reads a row of team [o] itself: whatever values are
    put in the [sot_conceded] column of team [o]'s rows, the factor is
    unchanged. It averages what the teams that played [o] conceded. *)
Theorem lp_opp_ma5_ignores_opponent_rows df i r (g : MatchRow -> option Q) :
  Forall side_consistent df -> nth_error df i = Some r ->
  lp_opp_ma5_at
    (map (fun r' => if Nat.eqb (team_name r') (opponent_team r)
                    then with_sot_conceded r' (g r') else r') df) i
  = lp_opp_ma5_at df i.
Proof.
  intros Hf Hr; unfold lp_opp_ma5_at.
  rewrite nth_error_map, Hr; cbn [option_map].
  assert (Ho : opponent_team (if Nat.eqb (team_name r) (opponent_team r)
                              then with_sot_conceded r (g r) else r) = opponent_team r)
    by (destruct (Nat.eqb (team_name r) (opponent_team r)); reflexivity).
  rewrite Ho, firstn_map.
  rewrite window_ignores_team by (apply Forall_firstn; exact Hf).
  reflexivity.
Qed.

Lemma ex_opp_df_consistent : Forall side_consistent ex_opp_df.
Proof.
  unfold ex_opp_df, mk.
  repeat constructor; cbn; try discriminate; try (intros H; discriminate H);
    intros H; try reflexivity; exfalso; apply H; reflexivity.
Qed.

Lemma lp_opp_ma5_ignores_opponent_rows_witness :
  nth_error ex_opp_df 5 = Some (mk 1 1 2 "home" 3 None) /\
  lp_opp_ma5_at ex_opp_df 5 = Some (13 # 3) /\
  lp_opp_ma5_at
    (map (fun r' => if Nat.eqb (team_name r') 2
                    then with_sot_conceded r' (Some 100) else r') ex_opp_df) 5
  = lp_opp_ma5_at ex_opp_df 5.
Proof.
  split; [reflexivity|].
  split; [vm_compute; reflexivity|].
  exact (lp_opp_ma5_ignores_opponent_rows ex_opp_df 5 (mk 1 1 2 "home" 3 None)
           (fun _ => Some 100) ex_opp_df_consistent eq_refl).
Defined.

End LiveLPFacts.

(** ** The O-factor of both live predictors *)

Module OFactorBugFacts.
Import Column OFactor OFactorFacts LiveLP LiveLPFacts.
Local Open Scope string_scope.

Lemma lastn_short {A} (l : list A) : (length l <= MIN_PERIODS)%nat -> lastn MIN_PERIODS l = l.
Proof.
  intros H; unfold lastn; replace (length l - MIN_PERIODS)%nat with 0%nat by lia; reflexivity.
Qed.

Lemma opp_ma5_raw_lastn df row h0 ht :
  opponent_history df row = h0 :: ht ->
  opp_ma5_raw df row = series_mean (map sot_conceded (lastn MIN_PERIODS (h0 :: ht))).
Proof.
  intros Hh; unfold opp_ma5_raw; rewrite Hh.
  destruct (Nat.leb MIN_PERIODS (length (h0 :: ht))) eqn:El; [reflexivity|].
  apply Nat.leb_gt in El; rewrite lastn_short by lia; reflexivity.
Qed.

Lemma ex_df_consistent : Forall side_consistent ex_df.
Proof.
  unfold ex_df, ex_row, mk.
  repeat constructor; cbn; try discriminate; try (intros H; discriminate H);
    intros H; try reflexivity; exfalso; apply H; reflexivity.
Qed.

(** ** C2 *)

(** Claim C2 (as the code does it). live_predictor_zip.py: the O-factor of
    row [i] is the mean of the metric over the last [MIN_PERIODS] rows of
    [opponent_history] (player rows of the opponent strictly before the
    row, so a match with several player rows counts several times), or the
    league average when the opponent has no earlier row or none of these
    rows has the metric; the league average is itself undefined when no
    row of the table has the metric. live_predictor.py: the O-factor of row
    [j] is the rolling mean, over the earlier rows of the table that have
    the same opponent, of their own [sot_conceded]; in a table whose rows
    agree with their fixture none of these rows belongs to the opponent. *)
Theorem opp_ma5_code_windows df i row dfl j r :
  nth_error df i = Some row -> Forall side_consistent dfl -> nth_error dfl j = Some r ->
  nth_error (calculate_opp_ma5 df) i
  = Some (match opponent_history df row with
          | [] => league_avg df
          | h => match series_mean (map sot_conceded (lastn MIN_PERIODS h)) with
                 | Some v => Some v
                 | None => league_avg df
                 end
          end)
  /\ (league_avg df = None <-> obs (map sot_conceded df) = [])
  /\ lp_opp_ma5_at dfl j
     = PFactor.rolling_left_mean MIN_PERIODS
         (map sot_conceded
            (filter (fun r' => Nat.eqb (opponent_team r') (opponent_team r)) (firstn j dfl)))
  /\ (forall r', In r' (filter (fun r' => Nat.eqb (opponent_team r') (opponent_team r))
                          (firstn j dfl)) ->
       team_name r' <> opponent_team r).
Proof.
  intros Hi Hf Hj.
  split; [|split; [|split]].
  - rewrite (calculate_opp_ma5_at _ _ _ Hi).
    destruct (opponent_history df row) as [|h0 ht] eqn:Eh.
    + rewrite (opp_ma5_raw_no_history _ _ Eh); reflexivity.
    + rewrite (opp_ma5_raw_lastn _ _ _ _ Eh); reflexivity.
  - unfold league_avg, series_mean.
    destruct (obs (map sot_conceded df)); split; congruence.
  - unfold lp_opp_ma5_at; rewrite Hj; reflexivity.
  - intros r' Hr'; apply filter_In in Hr'; destruct Hr' as [Hin Ho].
    apply Nat.eqb_eq in Ho; rewrite <- Ho.
    intros Heq; apply (consistent_opponent_not_own r'); [|symmetry; exact Heq].
    rewrite Forall_forall in Hf; apply Hf.
    rewrite <- (firstn_skipn j dfl); apply in_app_iff; left; exact Hin.
Qed.

Lemma opp_ma5_code_windows_witness :
  nth_error ex_df 6 = Some ex_row /\ Forall side_consistent ex_opp_df
  /\ nth_error ex_opp_df 5 = Some (mk 1 1 2 "home" 3 None)
  /\ lp_opp_ma5_at ex_opp_df 5
     = PFactor.rolling_left_mean MIN_PERIODS
         (map sot_conceded
            (filter (fun r' => Nat.eqb (opponent_team r') 2) (firstn 5 ex_opp_df))).
Proof.
  split; [reflexivity|split; [exact ex_opp_df_consistent|split; [reflexivity|]]].
  exact (proj1 (proj2 (proj2 (opp_ma5_code_windows ex_df 6 ex_row ex_opp_df 5
                                (mk 1 1 2 "home" 3 None) eq_refl ex_opp_df_consistent
                                eq_refl)))).
Defined.

(** Team 1 hosts team 2 at time 3; team 2 conceded 2 and then 6 in its two
    earlier matches, each with three player rows. The specification's
    O-factor is the mean over these two matches, 4. live_predictor_zip.py
    averages the last five player rows, (2*2 + 3*6)/5 = 22/5.
    live_predictor.py looks at the earlier rows whose opponent is team 2;
    there is none (team 2's own rows have opponents 3 and 4), so the factor
    is missing. In a table where no row has the metric, live_predictor_zip.py
    also leaves the factor of a row without opponent history missing. *)
Lemma opp_ma5_window_counterexample :
  nth_error ex_df 6 = Some ex_row /\ Forall side_consistent ex_df /\
  nth_error (calculate_opp_ma5 ex_df) 6 = Some (Some (22 # 5)) /\
  (exists v, opp_ma5_spec ex_df ex_row = Some v /\ v == 4) /\
  ~ (22 # 5 == 4) /\
  lp_opp_ma5_at ex_df 6 = None /\
  opponent_history nometric_df ex_row = [] /\
  nth_error (calculate_opp_ma5 nometric_df) 1 = Some None.
Proof.
  split; [reflexivity|split; [exact ex_df_consistent|]].
  split; [vm_compute; reflexivity|].
  split; [eexists; split; [vm_compute; reflexivity|vm_compute; reflexivity]|].
  split; [vm_compute; discriminate|].
  split; [vm_compute; reflexivity|split; reflexivity].
Qed.

End OFactorBugFacts.

(** ** scale_live_data of live_predictor.py *)

Module ScaleLPFacts.
Import Column Scaling Live LiveFacts.
Local Open Scope string_scope.

Lemma get_col_some df c v : lookup c df = Some v -> get_col df c = Ok v.
Proof. unfold get_col; intros ->; reflexivity. Qed.

Lemma scale_stem_lp_present profile df stem :
  lookup stem df <> None ->
  exists df', scale_stem_lp profile df stem = Ok df' /\
    forall c, (c <> scaled_name stem -> lookup c df' = lookup c df) /\
              (lookup c df' <> None <->
               lookup c df <> None \/ (c = scaled_name stem /\ lookup stem profile <> None)).
Proof.
  intros Hs; destruct (lookup stem df) as [col|] eqn:Ec; [clear Hs|contradiction].
  assert (Hset : forall v, forall c,
            (c <> scaled_name stem -> lookup c (set_col df (scaled_name stem) v) = lookup c df) /\
            (lookup c (set_col df (scaled_name stem) v) <> None <->
             lookup c df <> None \/ (c = scaled_name stem /\ Some v <> None))).
  { intros v c; rewrite lookup_set_col.
    destruct (String.eqb_spec (scaled_name stem) c) as [<-|Hne].
    - split; [intros H; contradiction|]; split; [intros _; right; split; [reflexivity|discriminate]|discriminate].
    - split; [reflexivity|]; split; [tauto|intros [H|[H _]]; [exact H|congruence]]. }
  unfold scale_stem_lp; destruct (lookup stem profile) as [[st|]|] eqn:Ep.
  - destruct (Qeq_bool (std st) 0) eqn:Eq.
    + eexists; split; [reflexivity|]; intros c; destruct (Hset (repeat (Some 0) (nrows df)) c) as [H1 H2].
      split; [exact H1|rewrite H2; split; (intros [H|[H3 H4]]; [left; exact H|right; split; [exact H3|discriminate]])].
    + apply Qeq_bool_neq in Eq.
      rewrite (get_col_some _ _ _ Ec); cbn [bind]; rewrite sub_div_ok by exact Eq; cbn [bind].
      eexists; split; [reflexivity|]; intros c; destruct (Hset (map (option_map (fun x => (x - mean st) / std st)) col) c) as [H1 H2].
      split; [exact H1|rewrite H2; split; (intros [H|[H3 H4]]; [left; exact H|right; split; [exact H3|discriminate]])].
  - rewrite (get_col_some _ _ _ Ec); cbn [bind].
    eexists; split; [reflexivity|]; intros c; destruct (Hset (map (fun _ => None) col) c) as [H1 H2].
    split; [exact H1|rewrite H2; split; (intros [H|[H3 H4]]; [left; exact H|right; split; [exact H3|discriminate]])].
  - eexists; split; [reflexivity|]; intros c; split; [reflexivity|].
    split; [intros H; left; exact H|intros [H|[_ H]]; [exact H|contradiction]].
Qed.

Lemma fold_scale_lp_present profile stems df :
  (forall s, In s stems -> lookup s df <> None) ->
  (forall s s', In s stems -> In s' stems -> s <> scaled_name s') ->
  exists df1, fold_res (scale_stem_lp profile) df stems = Ok df1 /\
    forall c, lookup c df1 <> None <->
      lookup c df <> None \/
      exists s, In s stems /\ c = scaled_name s /\ lookup s profile <> None.
Proof.
  revert df; induction stems as [|s0 t IH]; intros df Hin Hd.
  - exists df; split; [reflexivity|]; intros c; split; [tauto|intros [H|[s [[] _]]]; exact H].
  - destruct (scale_stem_lp_present profile df s0) as [df' [E H']]; [apply Hin; left; reflexivity|].
    destruct (IH df') as [df1 [E1 H1]].
    + intros s Hs; rewrite (proj1 (H' s)); [apply Hin; right; exact Hs|].
      apply Hd; [right; exact Hs|left; reflexivity].
    + intros s s' Hs Hs'; apply Hd; right; assumption.
    + exists df1; cbn [fold_res]; rewrite E; cbn [bind]; split; [exact E1|].
      intros c; rewrite H1, (proj2 (H' c)); split.
      * intros [[H|[Hc Hp]]|[s [Hs [Hc Hp]]]]; [left; exact H| |].
        -- right; exists s0; split; [left; reflexivity|split; assumption].
        -- right; exists s; split; [right; exact Hs|split; assumption].
      * intros [H|[s [[Hs|Hs] [Hc Hp]]]]; [left; left; exact H| |].
        -- subst s0; left; right; split; assumption.
        -- right; exists s; split; [exact Hs|split; assumption].
Qed.

Lemma select_columns_raise df cs e :
  map_res (fun c => v <- get_col df c ;; Ok (c, v)) cs = Raise e ->
  exists c, In c cs /\ lookup c df = None /\ e = KeyError c.
Proof.
  induction cs as [|c0 t IH]; simpl; [discriminate|].
  unfold get_col; destruct (lookup c0 df) as [v|] eqn:E; cbn [bind].
  - destruct (map_res _ t) as [cols|e'] eqn:E2; cbn [bind]; [discriminate|].
    intros H; injection H as <-; destruct (IH eq_refl) as [c [Hc Hl]].
    exists c; split; [right; exact Hc|exact Hl].
  - intros H; injection H as <-; exists c0; split; [left; reflexivity|split; [exact E|reflexivity]].
Qed.

Lemma stems_lp_eq : scaled_feature_stems_lp = ["sot_conceded_MA5"; "tackles_att_3rd_MA5"; "sot_MA5"; "min_MA5"].
Proof. vm_compute; reflexivity. Qed.

Lemma stems_lp_not_scaled s s' :
  In s scaled_feature_stems_lp -> In s' scaled_feature_stems_lp -> s <> scaled_name s'.
Proof.
  rewrite stems_lp_eq; intros H1 H2.
  repeat (destruct H1 as [<-|H1]); repeat (destruct H2 as [<-|H2]); try contradiction;
    vm_compute; discriminate.
Qed.

Lemma scaled_name_inj_lp s1 s2 :
  In s1 scaled_feature_stems_lp -> In s2 scaled_feature_stems_lp ->
  scaled_name s1 = scaled_name s2 -> s1 = s2.
Proof.
  rewrite stems_lp_eq; intros H1 H2.
  repeat (destruct H1 as [<-|H1]); repeat (destruct H2 as [<-|H2]); try contradiction;
    try reflexivity; vm_compute; discriminate.
Qed.

Lemma predictors_lp_iff c :
  In c PREDICTOR_COLUMNS_LP <->
  c = "summary_min" \/ exists s, In s scaled_feature_stems_lp /\ c = scaled_name s.
Proof.
  rewrite stems_lp_eq; unfold PREDICTOR_COLUMNS_LP; split.
  - intros H; destruct H as [<-|[<-|[<-|[<-|[<-|[]]]]]].
    + right; exists "sot_conceded_MA5"; split; [cbn; tauto|reflexivity].
    + right; exists "tackles_att_3rd_MA5"; split; [cbn; tauto|reflexivity].
    + right; exists "sot_MA5"; split; [cbn; tauto|reflexivity].
    + right; exists "min_MA5"; split; [cbn; tauto|reflexivity].
    + left; reflexivity.
  - intros [->|[s [Hs ->]]]; [cbn; tauto|].
    repeat (destruct Hs as [<-|Hs]); [cbn; tauto..|destruct Hs].
Qed.

Lemma summary_min_not_scaled s : In s scaled_feature_stems_lp -> "summary_min" <> scaled_name s.
Proof.
  rewrite stems_lp_eq; intros H; repeat (destruct H as [<-|H]); [vm_compute; discriminate..|destruct H].
Qed.

(** The [None] result of scale_live_data (live_predictor.py) and the
    shape of its matrix. *)
Lemma lp_none_iff_core profile df :
  (scale_live_data_lp profile df = Ok None <->
   exists stem, In stem scaled_feature_stems_lp /\ lookup stem df = None) /\
  (forall X, scale_live_data_lp profile df = Ok (Some X) ->
     map fst X = "const" :: PREDICTOR_COLUMNS_LP /\
     forall c, In c (PREDICTOR_COLUMNS_LP ++ ["const"]) -> In c (map fst X)).
Proof.
  split.
  - unfold scale_live_data_lp.
    destruct (forallb (has_col df) scaled_feature_stems_lp) eqn:Ef.
    + rewrite forallb_forall in Ef; split.
      * destruct (fold_res (scale_stem_lp profile) df scaled_feature_stems_lp); cbn [bind]; [|discriminate].
        destruct (map_res _ PREDICTOR_COLUMNS_LP); cbn [bind]; discriminate.
      * intros [stem [Hs Hl]]; specialize (Ef stem Hs); unfold has_col in Ef; rewrite Hl in Ef; discriminate.
    + split; [intros _|reflexivity].
      destruct (existsb (fun s => negb (has_col df s)) scaled_feature_stems_lp) eqn:Ee.
      * apply existsb_exists in Ee; destruct Ee as [stem [Hs Hn]].
        exists stem; split; [exact Hs|]; unfold has_col in Hn; destruct (lookup stem df); [discriminate|reflexivity].
      * exfalso.
        assert (Ht : forallb (has_col df) scaled_feature_stems_lp = true).
        { apply forallb_forall; intros s Hs; destruct (has_col df s) eqn:Eh; [reflexivity|].
          assert (Hx : existsb (fun s => negb (has_col df s)) scaled_feature_stems_lp = true)
            by (apply existsb_exists; exists s; rewrite Eh; auto).
          congruence. }
        congruence.
  - intros X H; unfold scale_live_data_lp in H.
    destruct (forallb (has_col df) scaled_feature_stems_lp); [|discriminate].
    destruct (fold_res (scale_stem_lp profile) df scaled_feature_stems_lp) as [df1|e];
      cbn [bind] in H; [|discriminate].
    destruct (map_res (fun c => v <- get_col df1 c ;; Ok (c, v)) PREDICTOR_COLUMNS_LP)
      as [cols|e] eqn:E; cbn [bind] in H; [|discriminate].
    injection H as <-.
    destruct (select_columns _ _ _ E) as [Hn _].
    split; [cbn; rewrite Hn; reflexivity|].
    intros c Hc; cbn [map fst]; rewrite Hn; apply in_app_iff in Hc.
    destruct Hc as [Hc|[<-|[]]]; [right; exact Hc|left; reflexivity].
Qed.

(** scale_live_data (live_predictor.py) returns None exactly when one of
    the four raw MA5 columns it scales is missing from the live table;
    when it returns a matrix, its columns are 'const' followed by
    PREDICTOR_COLUMNS, so the column check at the start of run_predictions
    always passes on it. *)
Theorem scale_live_data_lp_none_iff profile df :
  (scale_live_data_lp profile df = Ok None <->
   exists stem, In stem scaled_feature_stems_lp /\ lookup stem df = None) /\
  (forall X, scale_live_data_lp profile df = Ok (Some X) ->
     map fst X = "const" :: PREDICTOR_COLUMNS_LP /\
     forall c, In c (PREDICTOR_COLUMNS_LP ++ ["const"]) -> In c (map fst X)).
Proof. exact (lp_none_iff_core profile df). Qed.

Lemma scale_live_data_lp_none_iff_witness :
  scale_live_data_lp ex_profile ex_table = Ok None.
Proof.
  apply (proj2 (proj1 (scale_live_data_lp_none_iff ex_profile ex_table))).
  exists "tackles_att_3rd_MA5"; split; [vm_compute; tauto|reflexivity].
Defined.

(** The errors of scale_live_data (live_predictor.py) once the raw MA5
    columns are present. *)
Lemma lp_key_error_core profile df :
  (forall stem, In stem scaled_feature_stems_lp -> lookup stem df <> None) ->
  ((exists e, scale_live_data_lp profile df = Raise e) <->
   lookup "summary_min" df = None \/
   exists stem, In stem scaled_feature_stems_lp /\ lookup stem profile = None
                /\ lookup (scaled_name stem) df = None) /\
  (forall e, scale_live_data_lp profile df = Raise e -> exists c, e = KeyError c).
Proof.
  intros Hraw.
  destruct (fold_scale_lp_present profile scaled_feature_stems_lp df Hraw stems_lp_not_scaled)
    as [df1 [E1 H1]].
  assert (Hf : forallb (has_col df) scaled_feature_stems_lp = true).
  { apply forallb_forall; intros s Hs; unfold has_col; specialize (Hraw s Hs).
    destruct (lookup s df); [reflexivity|contradiction]. }
  assert (Hres : forall e, scale_live_data_lp profile df = Raise e <->
            map_res (fun c => v <- get_col df1 c ;; Ok (c, v)) PREDICTOR_COLUMNS_LP = Raise e).
  { intros e; unfold scale_live_data_lp; rewrite Hf, E1; cbn [bind].
    destruct (map_res _ _); cbn [bind]; split; intros H; try discriminate;
      injection H as ->; reflexivity. }
  (* a predictor column missing after the scaling loop *)
  assert (Hmiss : (exists c, In c PREDICTOR_COLUMNS_LP /\ lookup c df1 = None) <->
            lookup "summary_min" df = None \/
            exists stem, In stem scaled_feature_stems_lp /\ lookup stem profile = None
                         /\ lookup (scaled_name stem) df = None).
  { split.
    - intros [c [Hc Hl]]; apply predictors_lp_iff in Hc.
      destruct Hc as [->|[s [Hs ->]]].
      + left; destruct (lookup "summary_min" df) eqn:E; [|reflexivity].
        exfalso; apply (proj2 (H1 "summary_min")); [left; congruence|exact Hl].
      + right; exists s; split; [exact Hs|].
        split.
        * destruct (lookup s profile) eqn:E; [|reflexivity].
          exfalso; apply (proj2 (H1 (scaled_name s))); [|exact Hl].
          right; exists s; split; [exact Hs|split; [reflexivity|congruence]].
        * destruct (lookup (scaled_name s) df) eqn:E; [|reflexivity].
          exfalso; apply (proj2 (H1 (scaled_name s))); [left; congruence|exact Hl].
    - intros [Hs|[s [Hs [Hp Hd]]]].
      + exists "summary_min"; split; [apply predictors_lp_iff; left; reflexivity|].
        destruct (lookup "summary_min" df1) eqn:E; [|reflexivity].
        exfalso; destruct (proj1 (H1 "summary_min")) as [H|[s [Hs' [Heq _]]]];
          [congruence|congruence|exact (summary_min_not_scaled s Hs' Heq)].
      + exists (scaled_name s); split; [apply predictors_lp_iff; right; exists s; auto|].
        destruct (lookup (scaled_name s) df1) eqn:E; [|reflexivity].
        exfalso; destruct (proj1 (H1 (scaled_name s))) as [H|[s' [Hs' [Heq Hp']]]];
          [congruence|congruence|].
        rewrite (scaled_name_inj_lp _ _ Hs Hs' Heq) in Hp; contradiction. }
  split.
  - rewrite <- Hmiss; split.
    + intros [e He]; apply Hres, select_columns_raise in He.
      destruct He as [c [Hc [Hl _]]]; exists c; split; assumption.
    + intros [c [Hc Hl]].
      destruct (map_res (fun c => v <- get_col df1 c ;; Ok (c, v)) PREDICTOR_COLUMNS_LP)
        as [cols|e] eqn:E.
      * exfalso; destruct (select_columns _ _ _ E) as [Hn Hcols].
        assert (Hin : In c (map fst cols)) by (rewrite Hn; exact Hc).
        pose proof (Hcols c Hc) as Hlc; rewrite Hl in Hlc.
        apply in_map_iff in Hin; destruct Hin as [[k v] [Hk Hkv]]; simpl in Hk; subst k.
        clear -Hkv Hlc; induction cols as [|[k' v'] t IH]; [destruct Hkv|].
        cbn [lookup] in Hlc; destruct (String.eqb_spec k' c) as [->|Hne]; [discriminate|].
        destruct Hkv as [Hkv|Hkv]; [injection Hkv as -> _; contradiction|exact (IH Hkv Hlc)].
      * exists e; apply Hres; reflexivity.
  - intros e He; apply Hres, select_columns_raise in He.
    destruct He as [c [_ [_ ->]]]; exists c; reflexivity.
Qed.

(** scale_live_data (live_predictor.py), with every raw MA5 column present:
    it raises (always a KeyError, from the selection of PREDICTOR_COLUMNS)
    exactly when the live table has no 'summary_min' column, or when some
    feature is absent from the persisted statistics (the loop only logs it
    and skips it) and its scaled column is not already in the live table. *)
Theorem scale_live_data_lp_key_error profile df :
  (forall stem, In stem scaled_feature_stems_lp -> lookup stem df <> None) ->
  ((exists e, scale_live_data_lp profile df = Raise e) <->
   lookup "summary_min" df = None \/
   exists stem, In stem scaled_feature_stems_lp /\ lookup stem profile = None
                /\ lookup (scaled_name stem) df = None) /\
  (forall e, scale_live_data_lp profile df = Raise e -> exists c, e = KeyError c).
Proof. exact (lp_key_error_core profile df). Qed.

(** The live table without 'tackles_att_3rd_MA5' but with every raw column
    and a profile without 'min_MA5'. *)
Lemma scale_live_data_lp_key_error_witness :
  let df := ("tackles_att_3rd_MA5", [Some 2]) :: ("min_MA5", [Some 80]) :: ex_table in
  (forall stem, In stem scaled_feature_stems_lp -> lookup stem df <> None) /\
  exists e, scale_live_data_lp ex_profile df = Raise e.
Proof.
  cbv zeta.
  assert (Hraw : forall stem, In stem scaled_feature_stems_lp ->
            lookup stem (("tackles_att_3rd_MA5", [Some 2]) :: ("min_MA5", [Some 80]) :: ex_table)
            <> None).
  { rewrite stems_lp_eq; intros stem H; repeat (destruct H as [<-|H]); [discriminate..|destruct H]. }
  split; [exact Hraw|].
  apply (proj2 (proj1 (scale_live_data_lp_key_error ex_profile _ Hraw))).
  right; exists "min_MA5"; split; [rewrite stems_lp_eq; cbn; tauto|split; reflexivity].
Defined.

End ScaleLPFacts.

(** ** When the live predictors stop before scoring *)

Module SchemaFacts.
Import Column Scaling Live LiveFacts ScaleLPFacts.
Local Open Scope string_scope.













(** ** C5 *)


End SchemaFacts.

(** ** The paginated fetch on a store read without overlap *)

Module FetchExtraFacts.
Import Fetch.
Local Open Scope nat_scope.

Lemma idents_app' l1 l2 : idents (l1 ++ l2) = idents l1 ++ idents l2.
Proof. unfold idents; apply flat_map_app. Qed.

Lemma NoDup_app_disjoint {A} (l1 l2 : list A) x :
  NoDup (l1 ++ l2) -> In x l1 -> ~ In x l2.
Proof.
  induction l1 as [|a t IH]; simpl; intros Hn Hx; [destruct Hx|].
  inversion Hn as [|? ? Ha Ht]; subst.
  destruct Hx as [<-|Hx]; [|auto].
  intros H2; apply Ha; apply in_app_iff; right; exact H2.
Qed.

(** A page whose identifiers are distinct and all unseen is appended whole. *)
Lemma dedup_page_fresh seen data :
  NoDup (idents data) -> (forall i, In i (idents data) -> ~ In i seen) ->
  exists s', dedup_page seen data = (s', data, length data).
Proof.
  revert seen; induction data as [|r t IH]; intros seen Hn Hf; simpl.
  - exists seen; reflexivity.
  - destruct (id r) as [i|] eqn:Ei.
    + assert (Hid : idents (r :: t) = i :: idents t)
        by (unfold idents; simpl; rewrite Ei; reflexivity).
      rewrite Hid in Hn, Hf.
      inversion Hn as [|? ? Hi Ht]; subst.
      assert (Hs : existsb (Z.eqb i) seen = false).
      { apply Bool.not_true_iff_false; intros Hx; apply existsb_exists in Hx.
        destruct Hx as [j [Hj Hij]]; apply Z.eqb_eq in Hij; subst j.
        apply (Hf i); [left; reflexivity|exact Hj]. }
      rewrite Hs.
      destruct (IH (i :: seen) Ht) as [s' Hs'].
      { intros j Hj [<-|Hjs]; [exact (Hi Hj)|].
        apply (Hf j); [right; exact Hj|exact Hjs]. }
      rewrite Hs'; exists s'; reflexivity.
    + assert (Hid : idents (r :: t) = idents t)
        by (unfold idents; simpl; rewrite Ei; reflexivity).
      rewrite Hid in Hn, Hf.
      destruct (IH seen Hn Hf) as [s' Hs'].
      rewrite Hs'; exists s'; reflexivity.
Qed.

Lemma firstn_add {A} k m (s : list A) :
  firstn (k + m) s = firstn k s ++ firstn m (skipn k s).
Proof.
  revert s; induction k as [|k IH]; intros [|a t]; simpl; try reflexivity.
  - rewrite firstn_nil; reflexivity.
  - rewrite IH; reflexivity.
Qed.

Lemma NoDup_idents_firstn n s : NoDup (idents s) -> NoDup (idents (firstn n s)).
Proof.
  intros H; rewrite <- (firstn_skipn n s), idents_app' in H.
  apply NoDup_app_remove_r in H; exact H.
Qed.

Lemma fetch_loop_store s fuel j seen :
  NoDup (idents s) ->
  (forall i, In i seen <-> In i (idents (firstn (j * limit) s))) ->
  fetch_loop fuel (fun o => Some (firstn limit (skipn o s))) (j * limit) seen
    (firstn (j * limit) s)
  = firstn ((j + fuel) * limit) s.
Proof.
  intros Hnd; revert j seen; induction fuel as [|f IH]; intros j seen Hs.
  - rewrite Nat.add_0_r; reflexivity.
  - cbn [fetch_loop].
    destruct (firstn limit (skipn (j * limit) s)) as [|d0 dt] eqn:Ed.
    + assert (Hl : length s <= j * limit).
      { destruct (skipn (j * limit) s) as [|x y] eqn:Esk.
        - apply skipn_all_iff; exact Esk.
        - discriminate Ed. }
      rewrite !firstn_all2 by nia; reflexivity.
    + set (data := d0 :: dt) in *.
      assert (Hpre : firstn (S j * limit) s = firstn (j * limit) s ++ data).
      { replace (S j * limit) with (j * limit + limit) by lia.
        rewrite firstn_add, Ed; reflexivity. }
      assert (Hnd' : NoDup (idents (firstn (j * limit) s) ++ idents data)).
      { rewrite <- idents_app', <- Hpre; apply NoDup_idents_firstn; exact Hnd. }
      destruct (dedup_page_fresh seen data) as [s' Hs'].
      { apply NoDup_app_remove_l in Hnd'; exact Hnd'. }
      { intros i Hi Hin; apply Hs in Hin.
        exact (NoDup_app_disjoint _ _ _ Hnd' Hin Hi). }
      rewrite Hs'.
      assert (Hlen : 0 < length data) by (simpl; lia).
      destruct (Nat.ltb_spec (length data) limit) as [Hlt|Hge].
      * cbn [orb].
        assert (Hl : length s < S j * limit).
        { assert (Hsk : length (skipn (j * limit) s) < limit).
          { destruct (Nat.le_gt_cases limit (length (skipn (j * limit) s))) as [Hle|Hgt];
              [|exact Hgt].
            exfalso; pose proof (length_firstn limit (skipn (j * limit) s)) as Hf.
            rewrite Ed in Hf; fold data in Hf; lia. }
          rewrite length_skipn in Hsk; lia. }
        rewrite <- Hpre, !firstn_all2 by nia; reflexivity.
      * assert (Hn0 : Nat.eqb (length data) 0 = false) by (apply Nat.eqb_neq; lia).
        rewrite Hn0; cbn [orb].
        replace (j * limit + limit) with (S j * limit) by lia.
        rewrite <- Hpre.
        replace ((j + S f) * limit) with ((S j + f) * limit) by lia.
        apply IH.
        intros i; rewrite Hpre, idents_app'.
        destruct (FetchFacts.dedup_page_spec _ _ _ _ _ Hs') as [H1 _].
        rewrite H1, in_app_iff, Hs; tauto.
Qed.

(** fetch_with_deduplication: when every page request at offset [o]
    returns the next [limit] records of a store from position [o] and the
    store's record identifiers are distinct, [fuel] requests return exactly
    the first [fuel * limit] records of the store, in store order; in
    particular the whole store once [fuel * limit] reaches its size. *)
Theorem fetch_store_round_trip s fuel :
  NoDup (idents s) ->
  fetch_with_deduplication fuel (fun o => Some (firstn limit (skipn o s)))
  = firstn (fuel * limit) s.
Proof.
  intros Hnd; unfold fetch_with_deduplication.
  change 0 with (0 * limit).
  change (@nil Rec) with (firstn (0 * limit) s).
  apply fetch_loop_store; [exact Hnd|simpl; tauto].
Qed.

Lemma fetch_store_round_trip_witness :
  NoDup (idents (firstn 3 store)) /\
  fetch_with_deduplication 1 (fun o => Some (firstn limit (skipn o (firstn 3 store))))
  = firstn 3 store.
Proof.
  assert (Hn : NoDup (idents (firstn 3 store))).
  { vm_compute; repeat constructor; simpl; intuition discriminate. }
  split; [exact Hn|].
  rewrite (fetch_store_round_trip (firstn 3 store) 1 Hn).
  vm_compute; reflexivity.
Defined.

End FetchExtraFacts.

(** ** Training-time scaling and feature preparation *)

Module ScalingExtraFacts.
Import Column Scaling.

Definition fill_rel (o o' : option Q) : Prop := forall x, o = Some x -> o' = Some x.

Lemma fillna_mean_rel c : Forall2 fill_rel c (fillna_mean c).
Proof.
  unfold fillna_mean; destruct (series_mean c) as [m|].
  - induction c as [|o t IH]; constructor; [|exact IH].
    intros x ->; reflexivity.
  - induction c as [|o t IH]; constructor; [|exact IH].
    intros x Hx; exact Hx.
Qed.

Lemma reapply_nan_pattern st c f :
  Forall2 fill_rel c f ->
  Forall2 (fun o o' => o = None <-> o' = None) c (reapply_nan c (map (scaler_transform st) f)).
Proof.
  induction 1 as [|o o' c f Ho _ IH]; [constructor|].
  change (reapply_nan (o :: c) (map (scaler_transform st) (o' :: f)))
    with ((match o with None => None | Some _ => scaler_transform st o' end)
          :: reapply_nan c (map (scaler_transform st) f)).
  constructor; [|exact IH].
  destruct o as [x|]; [|tauto].
  rewrite (Ho x eq_refl); simpl; split; discriminate.
Qed.

Lemma reapply_nan_obs st c f :
  Forall2 fill_rel c f ->
  obs (reapply_nan c (map (scaler_transform st) f))
  = map (fun x => (x - mean st) / std st) (obs c).
Proof.
  induction 1 as [|o o' c f Ho _ IH]; [reflexivity|].
  change (reapply_nan (o :: c) (map (scaler_transform st) (o' :: f)))
    with ((match o with None => None | Some _ => scaler_transform st o' end)
          :: reapply_nan c (map (scaler_transform st) f)).
  destruct o as [x|]; simpl; [rewrite (Ho x eq_refl); simpl; rewrite IH|exact IH].
  reflexivity.
Qed.

Lemma qsum_affine (m s : Q) l :
  qsum (map (fun x => (x - m) / s) l)
  == (qsum l - inject_Z (Z.of_nat (length l)) * m) / s.
Proof.
  assert (Hc : forall a l, qsum (a :: l) = a + qsum l) by reflexivity.
  induction l as [|a t IH].
  - unfold Qdiv; simpl; ring.
  - cbn [map length]; rewrite !Hc, IH, Nat2Z.inj_succ, <- Z.add_1_r, inject_Z_plus.
    unfold Qdiv; ring.
Qed.

Lemma forall2_refl_none (c : list (option Q)) :
  Forall2 (fun o o' => o = None <-> o' = None) c c.
Proof. induction c; constructor; tauto. Qed.

(** standardize_features, one column: the scaled column is NaN exactly
    where the input column is NaN, and its defined values sum to zero
    (they are centred on the mean the scaler stores). *)
Theorem standardize_column_centered sqrt c :
  Forall2 (fun o o' => o = None <-> o' = None) c (fst (standardize_column sqrt c))
  /\ qsum (obs (fst (standardize_column sqrt c))) == 0.
Proof.
  unfold standardize_column; cbv zeta.
  destruct (scaler_fit sqrt (fillna_mean c)) as [st|] eqn:E; cbn [fst].
  - pose proof (fillna_mean_rel c) as Hr.
    split; [apply reapply_nan_pattern; exact Hr|].
    rewrite (reapply_nan_obs _ _ _ Hr), qsum_affine.
    rewrite (ScalingFacts.scaler_fit_mean _ _ _ E).
    assert (Hne : obs c <> []).
    { intros Eo; unfold fillna_mean, series_mean in E; rewrite Eo in E.
      unfold scaler_fit in E; rewrite Eo in E; discriminate. }
    assert (Hk : ~ inject_Z (Z.of_nat (length (obs c))) == 0).
    { destruct (obs c); [contradiction|]; unfold Qeq; simpl; lia. }
    assert (H0 : qsum (obs c) - inject_Z (Z.of_nat (length (obs c))) * qmean (obs c) == 0).
    { unfold qmean; field; exact Hk. }
    rewrite H0; unfold Qdiv; ring.
  - split; [apply forall2_refl_none|].
    destruct (obs c) as [|q l] eqn:Eo; [reflexivity|exfalso].
    unfold fillna_mean, series_mean in E; rewrite Eo in E.
    unfold scaler_fit in E.
    pose proof (ScalingFacts.obs_fillna_length (qmean (q :: l)) c) as Hl.
    rewrite Eo in Hl.
    destruct (obs (map (fillna (qmean (q :: l))) c)); [simpl in Hl; lia|discriminate].
Qed.

Definition scaled_row_of (p : TrainRow * (option Q * option Q)) : ScaledRow :=
  {| raw := fst p; sot_MA5_scaled := fst (snd p); sot_conceded_MA5_scaled := snd (snd p) |}.

(** A cell of a raw column and the cell of its scaled column: NaN stays
    NaN, a value [x] becomes [(x - mean) / std] with the fitted statistics. *)
Definition col_rel (ost : option ScalerStats) (o o' : option Q) : Prop :=
  match o with
  | None => o' = None
  | Some x => exists st, ost = Some st /\ o' = Some ((x - mean st) / std st)
  end.

(** A design row of prepare_features and the training row it comes from,
    given the statistics fitted for [sot_MA5] and [sot_conceded_MA5]. *)
Definition design_row (ost1 ost2 : option ScalerStats) (xy : list Q * Q) (t : TrainRow) : Prop :=
  exists p o c d e y st1 st2,
    ost1 = Some st1 /\ ost2 = Some st2 /\
    sot_MA5 t = Some p /\ sot_conceded_MA5 t = Some o /\ summary_min t = Some c /\
    is_forward t = Some d /\ is_defender t = Some e /\ sot t = Some y /\
    xy = ([1; (o - mean st2) / std st2; (p - mean st1) / std st1; c; d; e], y).

Lemma reapply_nan_rel st c f :
  Forall2 fill_rel c f ->
  Forall2 (col_rel (Some st)) c (reapply_nan c (map (scaler_transform st) f)).
Proof.
  induction 1 as [|o o' c f Ho _ IH]; [constructor|].
  change (reapply_nan (o :: c) (map (scaler_transform st) (o' :: f)))
    with ((match o with None => None | Some _ => scaler_transform st o' end)
          :: reapply_nan c (map (scaler_transform st) f)).
  constructor; [|exact IH].
  destruct o as [x|]; [|reflexivity].
  rewrite (Ho x eq_refl); exists st; split; reflexivity.
Qed.

Lemma scaler_fit_none_obs sqrt c : scaler_fit sqrt (fillna_mean c) = None -> obs c = [].
Proof.
  intros E; destruct (obs c) as [|q l] eqn:Eo; [reflexivity|exfalso].
  unfold fillna_mean, series_mean in E; rewrite Eo in E.
  unfold scaler_fit in E.
  pose proof (ScalingFacts.obs_fillna_length (qmean (q :: l)) c) as Hl.
  rewrite Eo in Hl.
  destruct (obs (map (fillna (qmean (q :: l))) c)); [simpl in Hl; lia|discriminate].
Qed.

Lemma obs_nil_rel c : obs c = [] -> Forall2 (col_rel None) c c.
Proof.
  induction c as [|[x|] t IH]; intros H; [constructor|discriminate|].
  constructor; [reflexivity|apply IH; exact H].
Qed.

Lemma standardize_column_rel sqrt c :
  Forall2 (col_rel (scaler_fit sqrt (fillna_mean c))) c (fst (standardize_column sqrt c)).
Proof.
  unfold standardize_column; cbv zeta.
  destruct (scaler_fit sqrt (fillna_mean c)) as [st|] eqn:E; cbn [fst].
  - apply reapply_nan_rel, fillna_mean_rel.
  - apply obs_nil_rel, (scaler_fit_none_obs sqrt), E.
Qed.

Lemma prepare_rows_complete ost1 ost2 df s1 s2 :
  Forall2 (col_rel ost1) (map sot_MA5 df) s1 ->
  Forall2 (col_rel ost2) (map sot_conceded_MA5 df) s2 ->
  Forall2 (design_row ost1 ost2)
    (prepare_features (map scaled_row_of (combine df (combine s1 s2))))
    (filter complete df).
Proof.
  revert s1 s2; induction df as [|t df IH]; intros s1 s2 H1 H2; [constructor|].
  inversion H1 as [|o1 o1' l1 l1' E1 F1]; subst.
  inversion H2 as [|o2 o2' l2 l2' E2 F2]; subst.
  specialize (IH _ _ F1 F2).
  change (prepare_features (map scaled_row_of (combine (t :: df) (combine (o1' :: l1') (o2' :: l2')))))
    with (prepare_row (scaled_row_of (t, (o1', o2')))
          ++ prepare_features (map scaled_row_of (combine df (combine l1' l2')))).
  unfold prepare_row, scaled_row_of; cbn [fst snd raw sot_MA5_scaled sot_conceded_MA5_scaled].
  cbn [filter]; unfold complete.
  destruct (sot_MA5 t) as [p|] eqn:Ep; cbn [col_rel] in E1.
  - destruct E1 as [st1 [Hs1 ->]].
    destruct (sot_conceded_MA5 t) as [o|] eqn:Eo; cbn [col_rel] in E2.
    + destruct E2 as [st2 [Hs2 ->]].
      destruct (summary_min t) as [c|] eqn:Ec; [|exact IH].
      destruct (is_forward t) as [d|] eqn:Ed; [|exact IH].
      destruct (is_defender t) as [e|] eqn:Ee; [|exact IH].
      destruct (sot t) as [y|] eqn:Ey; [|exact IH].
      cbn [app]; constructor; [|exact IH].
      exists p, o, c, d, e, y, st1, st2; repeat split; assumption.
    + subst o2'; destruct (summary_min t), (is_forward t), (is_defender t), (sot t); exact IH.
  - subst o1'; destruct o2', (sot_conceded_MA5 t);
      destruct (summary_min t), (is_forward t), (is_defender t), (sot t); exact IH.
Qed.

Lemma prepare_features_design sqrt df :
  Forall2 (design_row (scaler_fit sqrt (fillna_mean (map sot_MA5 df)))
                      (scaler_fit sqrt (fillna_mean (map sot_conceded_MA5 df))))
    (prepare_features (fst (standardize_features sqrt df))) (filter complete df).
Proof.
  unfold standardize_features.
  pose proof (standardize_column_rel sqrt (map sot_MA5 df)) as H1.
  pose proof (standardize_column_rel sqrt (map sot_conceded_MA5 df)) as H2.
  destruct (standardize_column sqrt (map sot_MA5 df)) as [s1 st1].
  destruct (standardize_column sqrt (map sot_conceded_MA5 df)) as [s2 st2].
  cbn [fst] in *.
  exact (prepare_rows_complete _ _ df s1 s2 H1 H2).
Qed.

(** standardize_features followed by prepare_features: the training
    design has one row per input row whose six raw fields ([sot_MA5],
    [sot_conceded_MA5], [summary_min], [is_forward], [is_defender], [sot])
    are all defined, in input order. Each is [1] (the constant), then
    [(o - mean) / std] and [(p - mean) / std] for the row's raw
    [sot_conceded_MA5] value [o] and [sot_MA5] value [p], with the
    statistics fitted on each column (those persisted in the profile),
    then the raw [summary_min], [is_forward], [is_defender]; its target is
    the row's [sot]. *)
Theorem prepare_features_complete_rows sqrt df :
  Forall2 (design_row (scaler_fit sqrt (fillna_mean (map sot_MA5 df)))
                      (scaler_fit sqrt (fillna_mean (map sot_conceded_MA5 df))))
    (prepare_features (fst (standardize_features sqrt df))) (filter complete df)
  /\ snd (standardize_features sqrt df)
     = [("sot_MA5"%string, scaler_fit sqrt (fillna_mean (map sot_MA5 df)));
        ("sot_conceded_MA5"%string, scaler_fit sqrt (fillna_mean (map sot_conceded_MA5 df)))].
Proof.
  split; [apply prepare_features_design|apply ScalingFacts.standardize_features_profile].
Qed.

End ScalingExtraFacts.

(** ** Rows with an undefined factor *)

Module ExclusionFacts.
Import Column Scaling ScalingFacts ScalingExtraFacts.


(** ** C3 *)



End ExclusionFacts.

(** ** Position-code parsing *)

Module PositionParseFacts.
Import PositionParse.
Local Open Scope char_scope.

(** The first character of a text, if any, is not in [p]. *)
Definition head_not (p : ascii -> bool) (s : text) : Prop :=
  match s with [] => True | c :: _ => p c = false end.

Lemma dropwhile_head p s : head_not p (dropwhile p s).
Proof.
  induction s as [|a t IH]; simpl; [exact I|].
  destruct (p a) eqn:E; [exact IH|exact E].
Qed.

Lemma dropwhile_in p s c : In c (dropwhile p s) -> In c s.
Proof.
  induction s as [|a t IH]; simpl; [tauto|].
  destruct (p a); [intros H; right; auto|tauto].
Qed.

Lemma dropwhile_snoc p l h : p h = false -> dropwhile p (l ++ [h]) = dropwhile p l ++ [h].
Proof.
  intros Hh; induction l as [|a t IH]; simpl; [rewrite Hh; reflexivity|].
  destruct (p a); [exact IH|reflexivity].
Qed.

Lemma dropwhile_id p s : head_not p s -> dropwhile p s = s.
Proof. destruct s as [|a t]; simpl; [reflexivity|intros ->; reflexivity]. Qed.

Lemma strip_by_head p s : head_not p (strip_by p s).
Proof.
  unfold strip_by; pose proof (dropwhile_head p s) as Hh.
  destruct (dropwhile p s) as [|h t]; [exact I|].
  simpl in Hh |- *; rewrite (dropwhile_snoc p (rev t) h Hh), rev_app_distr.
  exact Hh.
Qed.

Lemma strip_by_last p s : head_not p (rev (strip_by p s)).
Proof. unfold strip_by; rewrite rev_involutive; apply dropwhile_head. Qed.

Lemma strip_by_in p s c : In c (strip_by p s) -> In c s.
Proof.
  unfold strip_by; intros H; apply in_rev in H; apply dropwhile_in in H.
  apply in_rev in H; apply dropwhile_in in H; exact H.
Qed.

Lemma strip_by_id p s : head_not p s -> head_not p (rev s) -> strip_by p s = s.
Proof.
  intros Hh Hl; unfold strip_by; rewrite (dropwhile_id p s Hh), (dropwhile_id p (rev s) Hl).
  apply rev_involutive.
Qed.

Lemma not_space_from_33 ch : (33 <= nat_of_ascii ch)%nat -> is_space ch = false.
Proof.
  intros H; unfold is_space; cbv zeta.
  assert (H1 : Nat.leb (nat_of_ascii ch) 13 = false) by (apply Nat.leb_gt; lia).
  assert (H2 : Nat.leb (nat_of_ascii ch) 31 = false) by (apply Nat.leb_gt; lia).
  assert (H3 : Nat.eqb (nat_of_ascii ch) 32 = false) by (apply Nat.eqb_neq; lia).
  rewrite H1, H2, H3, !andb_false_r; reflexivity.
Qed.

Lemma is_lower_range ch :
  is_lower ch = true <-> (97 <= nat_of_ascii ch <= 122)%nat.
Proof.
  unfold is_lower; rewrite andb_true_iff, !Nat.leb_le; tauto.
Qed.

Lemma upper_char_lower ch :
  is_lower ch = true -> nat_of_ascii (upper_char ch) = (nat_of_ascii ch - 32)%nat.
Proof.
  intros H; unfold upper_char; cbv zeta.
  change (Nat.leb 97 (nat_of_ascii ch) && Nat.leb (nat_of_ascii ch) 122) with (is_lower ch).
  rewrite H; apply nat_ascii_embedding.
  pose proof (nat_ascii_bounded ch); lia.
Qed.

Lemma upper_char_id ch : is_lower ch = false -> upper_char ch = ch.
Proof.
  intros H; unfold upper_char; cbv zeta.
  change (Nat.leb 97 (nat_of_ascii ch) && Nat.leb (nat_of_ascii ch) 122) with (is_lower ch).
  rewrite H; reflexivity.
Qed.

Lemma is_lower_upper ch : is_lower (upper_char ch) = false.
Proof.
  destruct (is_lower ch) eqn:E; [|rewrite upper_char_id by exact E; exact E].
  apply Bool.not_true_iff_false; intros H.
  apply is_lower_range in E, H; rewrite upper_char_lower in H by (apply is_lower_range; exact E).
  lia.
Qed.

Lemma is_space_upper ch : is_space (upper_char ch) = is_space ch.
Proof.
  destruct (is_lower ch) eqn:E; [|rewrite upper_char_id by exact E; reflexivity].
  pose proof (upper_char_lower ch E) as Hu; apply is_lower_range in E.
  rewrite !not_space_from_33 by lia; reflexivity.
Qed.

Lemma upper_char_comma ch : upper_char ch = "," -> ch = ",".
Proof.
  destruct (is_lower ch) eqn:E; [|rewrite upper_char_id by exact E; tauto].
  intros H; pose proof (upper_char_lower ch E) as Hu; rewrite H in Hu.
  apply is_lower_range in E; change (nat_of_ascii ",") with 44%nat in Hu; lia.
Qed.

Lemma upper_id s : (forall ch, In ch s -> is_lower ch = false) -> upper s = s.
Proof.
  induction s as [|a t IH]; intros H; [reflexivity|].
  unfold upper; cbn [map]; fold (upper t).
  rewrite upper_char_id by (apply H; left; reflexivity).
  rewrite IH by (intros ch Hin; apply H; right; exact Hin); reflexivity.
Qed.

Lemma before_comma_no_comma s ch : In ch (before_comma s) -> ch <> ",".
Proof.
  induction s as [|a t IH]; simpl; [tauto|].
  destruct (Ascii.eqb a ",") eqn:E; simpl; [tauto|].
  intros [<-|Hin]; [|auto].
  intros ->; rewrite Ascii.eqb_refl in E; discriminate.
Qed.

Lemma before_comma_id s : (forall ch, In ch s -> ch <> ",") -> before_comma s = s.
Proof.
  induction s as [|a t IH]; intros H; [reflexivity|]; simpl.
  destruct (Ascii.eqb a ",") eqn:E.
  - apply Ascii.eqb_eq in E; exfalso; apply (H a); [left; reflexivity|exact E].
  - rewrite IH by (intros ch Hin; apply H; right; exact Hin); reflexivity.
Qed.

Lemma existsb_false_iff {A} (f : A -> bool) l :
  existsb f l = false <-> forall x, In x l -> f x = false.
Proof.
  induction l as [|a t IH]; simpl; [tauto|].
  rewrite orb_false_iff, IH; split.
  - intros [Ha Ht] x [<-|Hx]; auto.
  - intros H; split; [apply H; left; reflexivity|intros x Hx; apply H; right; exact Hx].
Qed.

Lemma clean_code_iff s :
  clean_code s = true
  <-> (forall ch, In ch s -> ch <> "," /\ is_lower ch = false)
      /\ head_not is_space s /\ head_not is_space (rev s).
Proof.
  assert (Hh : forall l : text,
            match l with [] => true | ch :: _ => negb (is_space ch) end = true
            <-> head_not is_space l).
  { intros [|c l]; simpl; [tauto|rewrite negb_true_iff; tauto]. }
  unfold clean_code; rewrite !andb_true_iff, negb_true_iff, forallb_forall,
    existsb_false_iff, Hh, Hh.
  split.
  - intros [[[H1 H2] H3] H4]; split; [|split; assumption].
    intros ch Hin; split.
    + intros ->; specialize (H1 "," Hin); rewrite Ascii.eqb_refl in H1; discriminate.
    + specialize (H2 ch Hin); rewrite negb_true_iff in H2; exact H2.
  - intros [H [H3 H4]]; repeat split; try assumption.
    + intros ch Hin; apply Bool.not_true_iff_false; intros E; apply Ascii.eqb_eq in E.
      exact (proj1 (H ch Hin) E).
    + intros ch Hin; rewrite negb_true_iff; exact (proj2 (H ch Hin)).
Qed.

Lemma clean_upper_strip X : (forall ch, In ch X -> ch <> ",") -> clean_code (upper (strip X)) = true.
Proof.
  intros HX; apply clean_code_iff; split; [|split].
  - intros ch Hin; unfold upper in Hin; apply in_map_iff in Hin.
    destruct Hin as [y [<- Hy]]; apply strip_by_in in Hy.
    split; [|apply is_lower_upper].
    intros E; apply upper_char_comma in E; exact (HX y Hy E).
  - pose proof (strip_by_head is_space X) as Hh; unfold upper, strip.
    destruct (strip_by is_space X) as [|c t]; simpl in *; [exact I|].
    rewrite is_space_upper; exact Hh.
  - pose proof (strip_by_last is_space X) as Hl; unfold upper, strip.
    rewrite <- map_rev; destruct (rev (strip_by is_space X)) as [|c t]; simpl in *; [exact I|].
    rewrite is_space_upper; exact Hl.
Qed.

(** safe_extract_position: on an ASCII cell, whenever [ast.literal_eval]
    does not return a non-empty list (the plain path, the empty-list path
    and the ValueError/SyntaxError fallback), the parsed code has no comma,
    no lower-case letter and no white space at either end. *)
Theorem safe_extract_position_clean literal_eval raw c :
  ascii7 raw = true ->
  (forall first rest, literal_eval (strip raw) <> Some (first :: rest)) ->
  safe_extract_position literal_eval (Some raw) = Some c -> clean_code c = true.
Proof.
  intros _ Hle H; unfold safe_extract_position in H; cbv zeta in H.
  destruct (startswith_bracket_quote (strip raw) && endswith_bracket (strip raw)).
  - destruct (literal_eval (strip raw)) as [[|first rest]|] eqn:E.
    + injection H as <-; apply clean_upper_strip; intros ch; apply before_comma_no_comma.
    + exfalso; exact (Hle first rest eq_refl).
    + injection H as <-; apply clean_upper_strip; intros ch; apply before_comma_no_comma.
  - injection H as <-; apply clean_upper_strip; intros ch; apply before_comma_no_comma.
Qed.

Lemma safe_extract_position_clean_witness :
  ascii7 ex_bracketed = true
  /\ safe_extract_position (fun _ => None) (Some ex_bracketed) = Some ["F"; "W"]
  /\ clean_code ["F"; "W"] = true.
Proof.
  assert (E : safe_extract_position (fun _ => None) (Some ex_bracketed) = Some ["F"; "W"])
    by (vm_compute; reflexivity).
  split; [vm_compute; reflexivity|split; [exact E|]].
  apply (safe_extract_position_clean (fun _ => None) ex_bracketed);
    [vm_compute; reflexivity|intros f r; discriminate|exact E].
Defined.

(** safe_extract_position: an ASCII cell that is already a clean code and
    does not have the bracketed form is returned unchanged. *)
Theorem safe_extract_position_keeps_clean literal_eval c :
  ascii7 c = true -> clean_code c = true ->
  (startswith_bracket_quote c && endswith_bracket c) = false ->
  safe_extract_position literal_eval (Some c) = Some c.
Proof.
  intros _ Hc Hb; apply clean_code_iff in Hc; destruct Hc as [H [Hh Hl]].
  assert (Hs : strip c = c) by (apply strip_by_id; assumption).
  assert (Hbc : before_comma c = c)
    by (apply before_comma_id; intros ch Hin; exact (proj1 (H ch Hin))).
  assert (Hu : upper c = c)
    by (apply upper_id; intros ch Hin; exact (proj2 (H ch Hin))).
  unfold safe_extract_position; cbv zeta; rewrite Hs, Hb, Hbc, Hs, Hu; reflexivity.
Qed.

Lemma safe_extract_position_keeps_clean_witness :
  ascii7 ["F"; "W"] = true /\ clean_code ["F"; "W"] = true
  /\ (startswith_bracket_quote ["F"; "W"] && endswith_bracket ["F"; "W"]) = false
  /\ safe_extract_position (fun _ => None) (Some ["F"; "W"]) = Some ["F"; "W"].
Proof.
  split; [vm_compute; reflexivity|split; [vm_compute; reflexivity|split; [vm_compute; reflexivity|]]].
  apply safe_extract_position_keeps_clean; vm_compute; reflexivity.
Defined.

End PositionParseFacts.
